(** * spotmenu: the i3blocks Spotify blocklet

    A shallow embedding of [spotmenu.py] and the properties of its
    status-line pipeline: the template formatter, the de-duplicated
    printing of the status line, the two D-Bus signal handlers, the
    reconnect loop of [run] and the album-art URL rewrite.

    Conventions of the embedding.
    - A Python [str] is a [string]: the bytes of its UTF-8 encoding.  Every
      character the program inspects ([{], [}], [:], [/], [&], [<], [>] and
      the two quotes) is ASCII, and an ASCII byte never occurs inside a
      multi-byte sequence, so splitting, escaping and template parsing give
      the same result on bytes as on code points.
    - [str.upper], [str.lower] and [str.capitalize] are Python built-ins
      that follow the Unicode case tables.  They are the fields of the class
      [StrOps]; every definition and theorem is generic in them, and
      [ascii_ops] is the instance used to evaluate examples.
    - A raised exception is a value of [exn]; a pure computation that may
      raise has type [result A], and the methods of the blocklet, which
      mutate [self], print and talk to the bus, live in the monad [M]. *)

From Stdlib Require Import String Ascii List Bool Arith Lia.
From stdpp Require Import base tactics option list gmap strings.

Open Scope string_scope.

(* stdpp turns off the simplification of string concatenation. *)
#[local] Arguments String.append !_ _ / : simpl nomatch.

(** ** Exceptions and results *)

Inductive exn : Type :=
| KeyError (key : string)          (* [d[k]] with [k] absent, also from [kwargs] *)
| ValueError (msg : string)        (* malformed template *)
| RuntimeError (msg : string)
| AttributeError (name : string)
| DBusException                    (* [dbus.exceptions.DBusException] *)
| KeyboardInterrupt
| URLError                         (* [urllib.error.URLError], the image download *)
| Unsupported.                     (* a [string.Formatter] feature left out, see [parse] *)

#[global] Instance exn_eq_dec : EqDecision exn.
Proof. solve_decision. Defined.

Inductive result (A : Type) : Type :=
| Ok (a : A)
| Raise (e : exn).
Arguments Ok {A} a.
Arguments Raise {A} e.

#[global] Instance result_ret : MRet result := fun _ a => Ok a.
#[global] Instance result_bind : MBind result := fun _ _ f m =>
  match m with
  | Ok a => f a
  | Raise e => Raise e
  end.

(** [d[k]] on a Python dict whose lookup gave [o]. *)
Definition getitem {A} (key : string) (o : option A) : result A :=
  match o with
  | Some a => Ok a
  | None => Raise (KeyError key)
  end.

(** ** The string methods used by the program *)

Class StrOps : Type := {
  str_upper : string -> string;
  str_lower : string -> string;
  str_capitalize : string -> string
}.

(** [s.replace(old, new)] for a one-character [old]. *)
Fixpoint replace (old : ascii) (new : string) (s : string) : string :=
  match s with
  | EmptyString => EmptyString
  | String c s' =>
      if Ascii.eqb c old then new ++ replace old new s'
      else String c (replace old new s')
  end.

(** [html.escape(s)], with its default [quote=True]: the five replacements
    in the order the library performs them, the ampersand first. *)
Definition html_escape (s : string) : string :=
  let s := replace "&" "&amp;" s in
  let s := replace "<" "&lt;" s in
  let s := replace ">" "&gt;" s in
  let s := replace "034" "&quot;" s in
  let s := replace "'" "&#x27;" s in
  s.

(** [s.split(sep)] for a one-character separator: the list of the segments
    between the separators, never empty. *)
Fixpoint split (sep : ascii) (s : string) : list string :=
  match s with
  | EmptyString => [EmptyString]
  | String c s' =>
      if Ascii.eqb c sep then EmptyString :: split sep s'
      else match split sep s' with
           | seg :: segs => String c seg :: segs
           | [] => [String c EmptyString]
           end
  end.

(** [sep.join(l)]. *)
Definition join (sep : string) (l : list string) : string := String.concat sep l.

(** ** GUIManager.old_url_to_new (lines 353-356) *)

Definition new_base_url : string := "https://i.scdn.co/image/".

(** [url.split("/")[-1]] is the last segment; [split] never returns the
    empty list, so the index [-1] is always in range. *)
Definition old_url_to_new (url : string) : string :=
  let song_id := List.last (split "/" url) EmptyString in
  new_base_url ++ song_id.

(** ** Templates: the part of [string.Formatter] that [Formatter] inherits

    [string.Formatter.parse] walks the template from left to right and
    yields one tuple after the other, [(literal_text, field_name,
    format_spec)], raising [ValueError] where the template is malformed.
    The walk is lazy: the fields before a malformed place are rendered
    before the error is raised.  [parse] returns the tuples in order, and
    ends the list with [PError] where the library raises.

    Covered: literal text, the escapes [{{] and [}}], and replacement
    fields [{name}] and [{name:spec}].  Not covered, and answered with
    [Unsupported]: conversions ([!r]), attribute and index access in a
    field name ([.], [[]), numbered and empty field names, and
    replacement fields nested in a format spec. *)

Inductive parsed : Type :=
| PItem (literal_text : string) (field : option (string * string))
| PError (e : exn).

Definition snoc (s : string) (c : ascii) : string := s ++ String c EmptyString.

Fixpoint parse_literal (lit : string) (s : string) : list parsed :=
  match s with
  | EmptyString =>
      match lit with
      | EmptyString => []
      | _ => [PItem lit None]
      end
  | String c s' =>
      if Ascii.eqb c "{" then
        match s' with
        | EmptyString =>
            [PError (ValueError "Single '{' encountered in format string")]
        | String c' s'' =>
            if Ascii.eqb c' "{" then PItem (snoc lit "{") None :: parse_literal EmptyString s''
            else parse_field_name lit EmptyString s'
        end
      else if Ascii.eqb c "}" then
        match s' with
        | EmptyString =>
            [PError (ValueError "Single '}' encountered in format string")]
        | String c' s'' =>
            if Ascii.eqb c' "}" then PItem (snoc lit "}") None :: parse_literal EmptyString s''
            else [PError (ValueError "Single '}' encountered in format string")]
        end
      else parse_literal (snoc lit c) s'
  end

with parse_field_name (lit name : string) (s : string) : list parsed :=
  match s with
  | EmptyString => [PError (ValueError "expected '}' before end of string")]
  | String c s' =>
      if Ascii.eqb c "}" then PItem lit (Some (name, EmptyString)) :: parse_literal EmptyString s'
      else if Ascii.eqb c ":" then parse_format_spec lit name EmptyString s'
      else if Ascii.eqb c "{" then [PError (ValueError "unexpected '{' in field name")]
      else if Ascii.eqb c "!" || Ascii.eqb c "[" then [PError Unsupported]
      else parse_field_name lit (snoc name c) s'
  end

with parse_format_spec (lit name spec : string) (s : string) : list parsed :=
  match s with
  | EmptyString => [PError (ValueError "unmatched '{' in format spec")]
  | String c s' =>
      if Ascii.eqb c "}" then PItem lit (Some (name, spec)) :: parse_literal EmptyString s'
      else if Ascii.eqb c "{" then [PError Unsupported]
      else parse_format_spec lit name (snoc spec c) s'
  end.

Definition parse (format_string : string) : list parsed :=
  parse_literal EmptyString format_string.

(** [Formatter.get_field] of the library for keyword arguments only:
    [kwargs[field_name]].  A name that is empty, or holds a dot, a digit or
    a non-ASCII byte, is one of the forms left out above. *)
Definition plain_char (c : ascii) : bool :=
  let n := nat_of_ascii c in
  (negb (Ascii.eqb c ".") && negb ((48 <=? n) && (n <=? 57)) && (n <? 128))%nat.

Definition plain_name (name : string) : bool :=
  match name with
  | EmptyString => false
  | _ => forallb plain_char (list_ascii_of_string name)
  end.

Definition get_field (field_name : string) (kwargs : gmap string string) : result string :=
  if plain_name field_name then getitem field_name (kwargs !! field_name)
  else Raise Unsupported.

(** ** class Formatter (lines 28-59) *)

Module Formatter.

Record t : Type := mk {
  _format_string : string;
  _status_icons : gmap string string;
  _markup_escape : bool
}.

(** The values of [_FORMAT_FUNCS]: a function on strings, or the name of
    a method of the formatter. *)
Inductive format_func : Type :=
| Func (f : string -> string)
| MethodName (name : string).

Section WithStrOps.
Context {ops : StrOps}.

Definition _FORMAT_FUNCS : gmap string format_func :=
  {[ "upper" := Func str_upper;
     "lower" := Func str_lower;
     "capitalize" := Func str_capitalize;
     "icon" := MethodName "status_icon" ]}.

Definition __init__ (format_string : string)
    (status_icons : option (gmap string string)) (markup_escape : bool) : t :=
  {| _format_string := format_string;
     _status_icons := match status_icons with
                      | Some icons => icons
                      | None => ∅
                      end;
     _markup_escape := markup_escape |}.

Definition _format_func__status_icon (self : t) (status : string) : string :=
  default "?" (_status_icons self !! status).

(** [getattr(self, name)] for the names [format_field] builds. *)
Definition getattr (self : t) (name : string) : result (string -> string) :=
  if decide (name = "_format_func__status_icon")
  then Ok (_format_func__status_icon self)
  else Raise (AttributeError name).

Definition format_field (self : t) (value format_spec : string) : result string :=
  value ← match format_spec with
          | EmptyString => Ok value
          | _ =>
              format_func ← getitem format_spec (_FORMAT_FUNCS !! format_spec);
              format_func ← match format_func with
                            | MethodName name => getattr self ("_format_func__" ++ name)
                            | Func f => Ok f
                            end;
              Ok (format_func value)
          end;
  Ok (if _markup_escape self then html_escape value else value).

(** [string.Formatter.vformat] over the tuples of [parse]: the literal
    text, then the field looked up in [kwargs] and passed through
    [format_field]; the pieces are joined. *)
Fixpoint vformat (self : t) (items : list parsed) (kwargs : gmap string string)
    : result string :=
  match items with
  | [] => Ok EmptyString
  | PError e :: _ => Raise e
  | PItem literal_text None :: items' =>
      rest ← vformat self items' kwargs;
      Ok (literal_text ++ rest)
  | PItem literal_text (Some (field_name, format_spec)) :: items' =>
      obj ← get_field field_name kwargs;
      text ← format_field self obj format_spec;
      rest ← vformat self items' kwargs;
      Ok (literal_text ++ text ++ rest)
  end.

Definition format (self : t) (format_string : string) (kwargs : gmap string string)
    : result string :=
  vformat self (parse format_string) kwargs.

Definition __call__ (self : t) (kwargs : gmap string string) : result string :=
  format self (_format_string self) kwargs.

End WithStrOps.

End Formatter.

(** ASCII case conversion, to evaluate examples. *)
Definition ascii_upper_char (c : ascii) : ascii :=
  let n := nat_of_ascii c in
  if ((97 <=? n) && (n <=? 122))%nat then ascii_of_nat (n - 32) else c.

Definition ascii_lower_char (c : ascii) : ascii :=
  let n := nat_of_ascii c in
  if ((65 <=? n) && (n <=? 90))%nat then ascii_of_nat (n + 32) else c.

Definition map_string (f : ascii -> ascii) (s : string) : string :=
  string_of_list_ascii (map f (list_ascii_of_string s)).

Definition ascii_ops : StrOps :=
  {| str_upper := map_string ascii_upper_char;
     str_lower := map_string ascii_lower_char;
     str_capitalize := fun s =>
       match s with
       | EmptyString => EmptyString
       | String c s' => String (ascii_upper_char c) (map_string ascii_lower_char s')
       end |}.

(** ** What travels over the bus

    D-Bus values are typed by the interface that declares them.  The MPRIS
    player interface gives [PlaybackStatus] the type string and [Metadata]
    the type dictionary, whose entries read by the program are a list of
    strings ([xesam:artist]) and three strings.  A dictionary is a record
    of optional entries: [None] is a key that is absent. *)

Record metadata : Type := {
  xesam_artist : option (list string);
  xesam_title : option string;
  xesam_album : option string;
  mpris_artUrl : option string
}.

Inductive property : Type -> Type :=
| PlaybackStatus : property string
| Metadata : property metadata.

Definition property_name {A} (p : property A) : string :=
  match p with
  | PlaybackStatus => "PlaybackStatus"
  | Metadata => "Metadata"
  end.

(** The [changed_properties] argument of a [PropertiesChanged] signal. *)
Record changed_properties : Type := {
  changed_PlaybackStatus : option string;
  changed_Metadata : option metadata
}.

Definition changed {A} (p : property A) (d : changed_properties) : option A :=
  match p with
  | PlaybackStatus => changed_PlaybackStatus d
  | Metadata => changed_Metadata d
  end.

(** The player behind [BUS_NAME], as it answers [Get]. *)
Record Player : Type := {
  player_PlaybackStatus : string;
  player_Metadata : metadata
}.

Definition player_get {A} (p : property A) (pl : Player) : A :=
  match p with
  | PlaybackStatus => player_PlaybackStatus pl
  | Metadata => player_Metadata pl
  end.

(** What [GUIManager] uses of the blocklet it is handed: its
    [get_property]. *)
Record spotify_block_ref : Type := {
  block_get_property : forall A, property A -> result A
}.

(** ** class GUIManager (lines 249-356), the state the blocklet touches

    The Tk widgets are reduced to the values they hold; widget calls are
    taken to succeed.  [image] is the address the displayed picture was
    loaded from, [None] until [show_window] has loaded one ([image] and
    [image_wrapper] are set together there). *)

Module GUIManager.

Record t : Type := mk {
  status_str : string;
  artist : string;
  title : string;
  album : string;
  album_art : string;
  root_title : string;
  image : option string
}.

(** A method of the view: it may raise, and it mutates [self]; what it
    assigned before raising stays assigned. *)
Definition G (A : Type) : Type := t -> result A * t.

Definition bind {A B} (m : G A) (f : A -> G B) : G B := fun self =>
  match m self with
  | (Ok a, self') => f a self'
  | (Raise e, self') => (Raise e, self')
  end.
Definition pure {A} (a : A) : G A := fun self => (Ok a, self).
Definition lift {A} (r : result A) : G A := fun self => (r, self).
Definition assign (f : t -> t) : G unit := fun self => (Ok tt, f self).
Definition read {A} (f : t -> A) : G A := fun self => (Ok (f self), self).

#[local] Notation "'let*' x := m 'in' k" := (bind m (fun x => k))
  (at level 10, x name, m at level 100, k at level 200).
#[local] Notation "m ;;; k" := (bind m (fun _ => k))
  (at level 100, k at level 200, right associativity).

Definition set_status_str (v : string) (g : t) : t :=
  mk v (artist g) (title g) (album g) (album_art g) (root_title g) (image g).
Definition set_artist (v : string) (g : t) : t :=
  mk (status_str g) v (title g) (album g) (album_art g) (root_title g) (image g).
Definition set_title (v : string) (g : t) : t :=
  mk (status_str g) (artist g) v (album g) (album_art g) (root_title g) (image g).
Definition set_album (v : string) (g : t) : t :=
  mk (status_str g) (artist g) (title g) v (album_art g) (root_title g) (image g).
Definition set_album_art (v : string) (g : t) : t :=
  mk (status_str g) (artist g) (title g) (album g) v (root_title g) (image g).
Definition set_root_title (v : string) (g : t) : t :=
  mk (status_str g) (artist g) (title g) (album g) (album_art g) v (image g).
Definition set_image (v : option string) (g : t) : t :=
  mk (status_str g) (artist g) (title g) (album g) (album_art g) (root_title g) v.

(** U+F04C and U+F04B, the pause and play glyphs, in UTF-8. *)
Definition glyph_pause : string := String "239" (String "129" (String "140" EmptyString)).
Definition glyph_play : string := String "239" (String "129" (String "139" EmptyString)).

Section WithNetwork.
(** [urllib.request.urlopen] followed by the decoding of the picture:
    the picture found at an address, or [URLError]. *)
Variable urlopen : string -> result string.

Definition update_play_button_text (status : string) : G unit :=
  if decide (status = "Playing") then assign (set_status_str glyph_pause)
  else assign (set_status_str glyph_play).

Definition image_from_url (url : string) : result string := urlopen url.

Definition update_image : G unit :=
  let* album_art := read album_art in
  let* image := lift (image_from_url (old_url_to_new album_art)) in
  assign (set_image (Some image)).

Definition update_from_spotify_block (spotify_block : spotify_block_ref)
    (status : string) : G unit :=
  let* metadata := lift (block_get_property spotify_block _ Metadata) in
  let* artists := lift (getitem "xesam:artist" (xesam_artist metadata)) in
  assign (set_artist (join ", " artists));;;
  let* title := lift (getitem "xesam:title" (xesam_title metadata)) in
  assign (set_title title);;;
  let* album := lift (getitem "xesam:album" (xesam_album metadata)) in
  assign (set_album album);;;
  let* album_art := lift (getitem "mpris:artUrl" (mpris_artUrl metadata)) in
  assign (set_album_art album_art);;;
  assign (set_album_art (old_url_to_new album_art));;;
  update_play_button_text status;;;
  let* self := read id in
  assign (set_root_title (GUIManager.artist self ++ " - " ++ GUIManager.title self));;;
  match image self with
  | Some _ => update_image
  | None => pure tt
  end.

End WithNetwork.

End GUIManager.

(** ** The blocklet and its surroundings *)

Record Config : Type := {
  format : string;
  markup_escape : bool;
  status_icons : gmap string string;
  mouse_buttons : gmap string string;
  dedupe : bool
}.

(** The [config] argument of the constructor: the keys a configuration
    file or the command line supplied. *)
Record ConfigArg : Type := {
  arg_format : option string;
  arg_markup_escape : option bool;
  arg_status_icons : option (gmap string string);
  arg_mouse_buttons : option (gmap string string);
  arg_dedupe : option bool
}.

(** U+2013, the dash of the default format, in UTF-8. *)
Definition en_dash : string := String "226" (String "128" (String "147" EmptyString)).

Definition DEFAULT_CONFIG : Config :=
  {| format := "{artist} " ++ en_dash ++ " {title}";
     markup_escape := false;
     status_icons :=
       {[ "Playing" := GUIManager.glyph_play;
          "Paused" := GUIManager.glyph_pause;
          "Stopped" := String "239" (String "129" (String "141" EmptyString)) ]};
     mouse_buttons := {[ "1" := "PlayPause" ]};
     dedupe := true |}.

Definition BUS_NAME : string := "org.mpris.MediaPlayer2.spotify".
Definition OBJECT_PATH : string := "/org/mpris/MediaPlayer2".
Definition PLAYER_INTERFACE : string := "org.mpris.MediaPlayer2.Player".
Definition PROPERTIES_INTERFACE : string := "org.freedesktop.DBus.Properties".

(** [GLib.MainLoop]: whether [quit] was called on it. *)
Record MainLoop : Type := { quit_called : bool }.

Record SpotifyBlocklet : Type := mkBlocklet {
  _formatter : Formatter.t;
  _mouse_buttons : gmap string string;
  _dedupe : bool;
  _prev_info : option string;
  _handle_input_thread : bool;        (* the thread was started *)
  gui : option GUIManager.t;
  old_status : string;
  loop : option MainLoop;
  bus : bool;                         (* [self.bus] is set *)
  spotify : bool                      (* [self.spotify] is set *)
}.

(** A signal delivered by the main loop, or the interrupt of the operator. *)
Inductive event : Type :=
| PropertiesChanged (interface_name : string) (changed_properties : changed_properties)
    (invalidated : list string)
| NameOwnerChanged (name old_owner new_owner : string)
| Interrupt.

(** The process and the session around the blocklet. *)
Record World : Type := mkWorld {
  session_bus : bool;                 (* [dbus.SessionBus()] can be reached *)
  player : option Player;             (* [None]: nobody owns [BUS_NAME] *)
  urlopen : string -> result string;
  receivers : nat;                    (* signal receivers added to the shared connection *)
  pending : list event;               (* what the main loop will deliver *)
  stdout : list string;               (* the lines printed, oldest first *)
  logged : list exn;                  (* exceptions the signal dispatcher logged *)
  slept : nat                         (* seconds spent in [time.sleep] *)
}.

Record State : Type := mkState { self : SpotifyBlocklet; world : World }.

(** How a call ends: it returns, it raises, it is still inside
    [loop.run()] waiting for a signal when the script of [pending] events
    is used up, or the bound on the iterations of [run] was reached. *)
Inductive outcome (A : Type) : Type :=
| Return (a : A)
| Raised (e : exn)
| Waiting
| OutOfFuel.
Arguments Return {A} a.
Arguments Raised {A} e.
Arguments Waiting {A}.
Arguments OutOfFuel {A}.

Definition M (A : Type) : Type := State -> outcome A * State.

Definition ret {A} (a : A) : M A := fun st => (Return a, st).
Definition raise {A} (e : exn) : M A := fun st => (Raised e, st).
Definition bind {A B} (m : M A) (f : A -> M B) : M B := fun st =>
  match m st with
  | (Return a, st') => f a st'
  | (Raised e, st') => (Raised e, st')
  | (Waiting, st') => (Waiting, st')
  | (OutOfFuel, st') => (OutOfFuel, st')
  end.

Notation "'let*' x := m 'in' k" := (bind m (fun x => k))
  (at level 10, x name, m at level 100, k at level 200).
Notation "m ;;; k" := (bind m (fun _ => k))
  (at level 100, k at level 200, right associativity).

Definition lift {A} (r : result A) : M A := fun st =>
  match r with
  | Ok a => (Return a, st)
  | Raise e => (Raised e, st)
  end.
Definition get_self : M SpotifyBlocklet := fun st => (Return (self st), st).
Definition get_world : M World := fun st => (Return (world st), st).
Definition modify_self (f : SpotifyBlocklet -> SpotifyBlocklet) : M unit :=
  fun st => (Return tt, mkState (f (self st)) (world st)).
Definition modify_world (f : World -> World) : M unit :=
  fun st => (Return tt, mkState (self st) (f (world st))).

Definition set_prev_info (v : option string) (b : SpotifyBlocklet) : SpotifyBlocklet :=
  mkBlocklet (_formatter b) (_mouse_buttons b) (_dedupe b) v (_handle_input_thread b)
    (gui b) (old_status b) (loop b) (bus b) (spotify b).
Definition set_handle_input_thread (v : bool) (b : SpotifyBlocklet) : SpotifyBlocklet :=
  mkBlocklet (_formatter b) (_mouse_buttons b) (_dedupe b) (_prev_info b) v
    (gui b) (old_status b) (loop b) (bus b) (spotify b).
Definition set_gui (v : option GUIManager.t) (b : SpotifyBlocklet) : SpotifyBlocklet :=
  mkBlocklet (_formatter b) (_mouse_buttons b) (_dedupe b) (_prev_info b)
    (_handle_input_thread b) v (old_status b) (loop b) (bus b) (spotify b).
Definition set_old_status (v : string) (b : SpotifyBlocklet) : SpotifyBlocklet :=
  mkBlocklet (_formatter b) (_mouse_buttons b) (_dedupe b) (_prev_info b)
    (_handle_input_thread b) (gui b) v (loop b) (bus b) (spotify b).
Definition set_loop (v : option MainLoop) (b : SpotifyBlocklet) : SpotifyBlocklet :=
  mkBlocklet (_formatter b) (_mouse_buttons b) (_dedupe b) (_prev_info b)
    (_handle_input_thread b) (gui b) (old_status b) v (bus b) (spotify b).
Definition set_bus (v : bool) (b : SpotifyBlocklet) : SpotifyBlocklet :=
  mkBlocklet (_formatter b) (_mouse_buttons b) (_dedupe b) (_prev_info b)
    (_handle_input_thread b) (gui b) (old_status b) (loop b) v (spotify b).
Definition set_spotify (v : bool) (b : SpotifyBlocklet) : SpotifyBlocklet :=
  mkBlocklet (_formatter b) (_mouse_buttons b) (_dedupe b) (_prev_info b)
    (_handle_input_thread b) (gui b) (old_status b) (loop b) (bus b) v.

Definition set_receivers (v : nat) (w : World) : World :=
  mkWorld (session_bus w) (player w) (urlopen w) v (pending w) (stdout w) (logged w) (slept w).
Definition set_pending (v : list event) (w : World) : World :=
  mkWorld (session_bus w) (player w) (urlopen w) (receivers w) v (stdout w) (logged w) (slept w).
Definition set_stdout (v : list string) (w : World) : World :=
  mkWorld (session_bus w) (player w) (urlopen w) (receivers w) (pending w) v (logged w) (slept w).
Definition set_logged (v : list exn) (w : World) : World :=
  mkWorld (session_bus w) (player w) (urlopen w) (receivers w) (pending w) (stdout w) v (slept w).
Definition set_slept (v : nat) (w : World) : World :=
  mkWorld (session_bus w) (player w) (urlopen w) (receivers w) (pending w) (stdout w) (logged w) v.

(** [print(line, flush=True)]; [print(flush=True)] is [print_line] of the
    empty string. *)
Definition print_line (line : string) : M unit :=
  modify_world (fun w => set_stdout (stdout w ++ [line]) w).

(** [time.sleep(seconds)]. *)
Definition sleep (seconds : nat) : M unit :=
  modify_world (fun w => set_slept (slept w + seconds) w).

(** ** class SpotifyBlocklet (lines 62-221) *)

Definition outcome_of {A} (r : result A) : outcome A :=
  match r with
  | Ok a => Return a
  | Raise e => Raised e
  end.

(** [self.spotify.Get(PLAYER_INTERFACE, property_name)]: a remote call,
    answered by the player when there is one. *)
Definition read_property {A} (p : property A) (b : SpotifyBlocklet) (w : World) : result A :=
  if spotify b then
    match player w with
    | Some pl => Ok (player_get p pl)
    | None => Raise DBusException
    end
  else Raise (AttributeError "spotify").

Definition get_property {A} (p : property A) : M A :=
  fun st => (outcome_of (read_property p (self st) (world st)), st).

(** A method call on [self.gui]; the callers test [self.gui is not None]
    first. *)
Definition call_gui
    (method : (string -> result string) -> spotify_block_ref -> GUIManager.G unit) : M unit :=
  fun st =>
    match gui (self st) with
    | Some g =>
        let spotify_block :=
          {| block_get_property := fun A p => read_property p (self st) (world st) |} in
        let '(r, g') := method (urlopen (world st)) spotify_block g in
        (outcome_of r, mkState (set_gui (Some g') (self st)) (world st))
    | None => (Raised (AttributeError "gui"), st)
    end.

Inductive ctl : Type := Continue | Break.

Section Blocklet.
Context {ops : StrOps}.

Definition __init__ (config : option ConfigArg) : SpotifyBlocklet :=
  let _config :=
    match config with
    | Some c =>
        {| format := default (format DEFAULT_CONFIG) (arg_format c);
           markup_escape := default (markup_escape DEFAULT_CONFIG) (arg_markup_escape c);
           status_icons :=
             match arg_status_icons c with
             | Some value => value ∪ status_icons DEFAULT_CONFIG
             | None => status_icons DEFAULT_CONFIG
             end;
           mouse_buttons :=
             match arg_mouse_buttons c with
             | Some value => value ∪ mouse_buttons DEFAULT_CONFIG
             | None => mouse_buttons DEFAULT_CONFIG
             end;
           dedupe := default (dedupe DEFAULT_CONFIG) (arg_dedupe c) |}
    | None => DEFAULT_CONFIG
    end in
  {| _formatter := Formatter.__init__ (format _config) (Some (status_icons _config))
                     (markup_escape _config);
     _mouse_buttons := mouse_buttons _config;
     _dedupe := dedupe _config;
     _prev_info := None;
     _handle_input_thread := false;
     gui := None;
     old_status := EmptyString;
     loop := None;
     bus := false;
     spotify := false |}.

Definition init_loop : M unit :=
  modify_self (set_loop (Some {| quit_called := false |})).

(** Lines 204-210 of [show_info]: the line to show. *)
Definition render (formatter : Formatter.t) (status : string) (metadata : metadata)
    : result string :=
  artists ← getitem "xesam:artist" (xesam_artist metadata);
  let artist := join ", " artists in
  title ← getitem "xesam:title" (xesam_title metadata);
  Formatter.__call__ formatter
    {[ "status" := status; "artist" := artist; "title" := title ]}.

Definition show_info (status : string) (metadata : metadata) (only_if_changed : bool)
    : M unit :=
  let* self := get_self in
  let* info := lift (render (_formatter self) status metadata) in
  (if decide (old_status self ≠ status) then
     match gui self with
     | Some _ =>
         call_gui (fun urlopen _ => GUIManager.update_play_button_text status);;;
         modify_self (set_old_status status)
     | None => ret tt
     end
   else ret tt);;;
  let* self := get_self in
  if negb only_if_changed || bool_decide (_prev_info self ≠ Some info) then
    print_line info;;;
    modify_self (set_prev_info (Some info));;;
    let* self := get_self in
    match gui self with
    | Some _ =>
        call_gui (fun urlopen spotify_block =>
                    GUIManager.update_from_spotify_block urlopen spotify_block status)
    | None => ret tt
    end
  else ret tt.

Definition on_properties_changed (interface_name : string)
    (changed_properties : changed_properties) (invalidated : list string) : M unit :=
  let* status := lift (getitem "PlaybackStatus" (changed PlaybackStatus changed_properties)) in
  let* metadata := lift (getitem "Metadata" (changed Metadata changed_properties)) in
  let* self := get_self in
  show_info status metadata (_dedupe self).

Definition on_name_owner_changed (name old_owner new_owner : string) : M unit :=
  if bool_decide (old_owner ≠ EmptyString) && negb (bool_decide (new_owner ≠ EmptyString)) then
    print_line EmptyString;;;
    modify_self (set_prev_info None)
  else ret tt.

Definition show_initial_info : M unit :=
  let* status := get_property PlaybackStatus in
  let* metadata := get_property Metadata in
  show_info status metadata false.

(** Both receivers are added to the connection of the session bus, which
    [dbus.SessionBus()] shares within the process. *)
Definition connect_to_dbus_signals : M unit :=
  modify_world (fun w => set_receivers (S (receivers w)) w).

(** The dispatcher of the bus bindings calls a receiver and logs what it
    raises; the main loop goes on. *)
Definition deliver (handler : M unit) : M unit := fun st =>
  match handler st with
  | (Raised e, st') =>
      (Return tt, mkState (self st') (set_logged (logged (world st') ++ [e]) (world st')))
  | r => r
  end.

Fixpoint deliver_to (n : nat) (handler : M unit) : M unit :=
  match n with
  | 0 => ret tt
  | S n' => deliver handler;;; deliver_to n' handler
  end.

Definition handler_of (ev : event) : M unit :=
  match ev with
  | PropertiesChanged interface_name changed_properties invalidated =>
      on_properties_changed interface_name changed_properties invalidated
  | NameOwnerChanged name old_owner new_owner =>
      on_name_owner_changed name old_owner new_owner
  | Interrupt => raise KeyboardInterrupt
  end.

(** [self.loop.run()] over the script of events: each signal goes to
    every receiver added so far; an interrupt ends the loop with
    [KeyboardInterrupt]. *)
Fixpoint dispatch (events : list event) : M unit :=
  match events with
  | [] => fun st => (Waiting, st)
  | Interrupt :: events' =>
      modify_world (set_pending events');;;
      raise KeyboardInterrupt
  | ev :: events' =>
      modify_world (set_pending events');;;
      let* w := get_world in
      deliver_to (receivers w) (handler_of ev);;;
      dispatch events'
  end.

Definition loop_run : M unit :=
  let* w := get_world in
  dispatch (pending w).

Definition _run : M unit :=
  let* w := get_world in
  (if session_bus w then modify_self (set_bus true) else raise DBusException);;;
  modify_self (set_spotify true);;;
  connect_to_dbus_signals;;;
  show_initial_info;;;
  loop_run.

(** One turn of the [while True] of [run] (lines 148-157).  The [finally]
    clause runs however the [try] ended; its [break], taken when
    [forever] is false, replaces whatever was under way, a raised
    exception included. *)
Definition attempt (forever : bool) : M ctl := fun st =>
  let finally (under_way : outcome ctl) (st : State) :=
    if negb forever then (Return Break, st) else (under_way, st) in
  match _run st with
  | (Return _, st') => finally (Return Continue) st'
  | (Raised DBusException, st') =>
      let '(_, st'') := sleep 1 st' in
      finally (Return Continue) st''
  | (Raised KeyboardInterrupt, st') => finally (Return Break) st'
  | (Raised e, st') => finally (Raised e) st'
  | (Waiting, st') => (Waiting, st')
  | (OutOfFuel, st') => (OutOfFuel, st')
  end.

Fixpoint while_true (forever : bool) (fuel : nat) : M unit :=
  match fuel with
  | 0 => fun st => (OutOfFuel, st)
  | S fuel' =>
      let* c := attempt forever in
      match c with
      | Break => ret tt
      | Continue => while_true forever fuel'
      end
  end.

(** [run(init_loop=..., forever=...)]; [fuel] bounds the turns of the
    loop.  Starting [_handle_input_thread] is recorded; what the thread
    does ([handle_input], lines 116-122: it opens the view when a mouse
    button comes in on the standard input) runs beside the main loop and
    is not part of this sequential model.  Its only trace here is the
    field [gui], and the properties below hold for every value of it. *)
Definition run (init_loop_arg forever : bool) (fuel : nat) : M unit :=
  (if init_loop_arg then init_loop
   else
     let* self := get_self in
     match loop self with
     | None => raise (RuntimeError "Loop is not initialized; call init_loop() first.")
     | Some _ => ret tt
     end);;;
  (let* self := get_self in
   if _handle_input_thread self
   then raise (RuntimeError "threads can only be started once")
   else modify_self (set_handle_input_thread true));;;
  while_true forever fuel;;;
  modify_self (set_loop (Some {| quit_called := true |})).

End Blocklet.

(** ** Sample data, to evaluate the definitions *)

Definition track (artists : list string) (title : string) : metadata :=
  {| xesam_artist := Some artists;
     xesam_title := Some title;
     xesam_album := Some "Album";
     mpris_artUrl := Some "https://open.spotify.com/image/abc123" |}.

Definition playing_AB_T : Player :=
  {| player_PlaybackStatus := "Playing"; player_Metadata := track ["A"; "B"] "T" |}.

Definition line_AB_T : string := "A, B " ++ en_dash ++ " T".

(** A session where the player is up, with a script of signals. *)
Definition session (events : list event) : World :=
  {| session_bus := true;
     player := Some playing_AB_T;
     urlopen := fun url => Ok url;
     receivers := 0;
     pending := events;
     stdout := [];
     logged := [];
     slept := 0 |}.

(** A session without a session bus. *)
Definition no_bus : World :=
  {| session_bus := false;
     player := None;
     urlopen := fun url => Raise URLError;
     receivers := 0;
     pending := [];
     stdout := [];
     logged := [];
     slept := 0 |}.

Definition exec {A} (m : M A) (st : State) : State := snd (m st).

(** [st'] has printed what [st] had, and maybe more. *)
Definition extends (st st' : State) : Prop :=
  exists lines, stdout (world st') = (stdout (world st) ++ lines)%list.

(** The configuration [--no-dedupe]. *)
Definition no_dedupe : ConfigArg :=
  {| arg_format := None;
     arg_markup_escape := None;
     arg_status_icons := None;
     arg_mouse_buttons := None;
     arg_dedupe := Some false |}.

(** The default blocklet when it connects again: the line it printed
    before the connection was lost is still in [_prev_info]. *)
Definition reconnecting (w : World) : State :=
  mkState (set_prev_info (Some line_AB_T) (__init__ None)) w.

(** A [PropertiesChanged] payload with both keys, and one without
    [Metadata]. *)
Definition changed_AB_T : changed_properties :=
  {| changed_PlaybackStatus := Some "Playing";
     changed_Metadata := Some (track ["A"; "B"] "T") |}.

Definition changed_status_only : changed_properties :=
  {| changed_PlaybackStatus := Some "Paused"; changed_Metadata := None |}.

(** The default blocklet once [self.bus] and [self.spotify] are set. *)
Definition connected (w : World) : State :=
  mkState (set_spotify true (set_bus true (__init__ None))) w.

(** A view showing the track of [playing_AB_T], with its picture. *)
Definition view_AB_T : GUIManager.t :=
  GUIManager.mk GUIManager.glyph_pause "A, B" "T" "Album"
    "https://i.scdn.co/image/abc123" "A, B - T" (Some "https://i.scdn.co/image/abc123").

(** The connected blocklet with that view open and its line printed. *)
Definition viewing (w : World) : State :=
  mkState (set_gui (Some view_AB_T) (set_prev_info (Some line_AB_T)
             (set_spotify true (set_bus true (__init__ None))))) w.

(** A blocklet seen by the view, whose player plays the track [metadata]. *)
Definition block_playing (metadata : metadata) : spotify_block_ref :=
  {| block_get_property := fun A p =>
       match p in property T return result T with
       | PlaybackStatus => Ok "Playing"
       | Metadata => Ok metadata
       end |}.

(** A track without album and picture. *)
Definition bare_track : metadata :=
  {| xesam_artist := Some ["C"];
     xesam_title := Some "U";
     xesam_album := None;
     mpris_artUrl := None |}.



(** The blocklet of the default configuration, just constructed. *)
Definition fresh (w : World) : State := mkState (__init__ None) w.

(** Does [c] occur in [s]? *)
Fixpoint occurs (c : ascii) (s : string) : bool :=
  match s with
  | EmptyString => false
  | String c' s' => Ascii.eqb c' c || occurs c s'
  end.

(** [html.escape] in one pass: what each character becomes. *)
Definition escape_char (c : ascii) : string :=
  if Ascii.eqb c "&" then "&amp;"
  else if Ascii.eqb c "<" then "&lt;"
  else if Ascii.eqb c ">" then "&gt;"
  else if Ascii.eqb c "034" then "&quot;"
  else if Ascii.eqb c "'" then "&#x27;"
  else String c EmptyString.

Fixpoint escape_chars (s : string) : string :=
  match s with
  | EmptyString => EmptyString
  | String c s' => escape_char c ++ escape_chars s'
  end.


(** A template inside the part of the template language covered by
    [parse] and [get_field]. *)
Definition covered_item (item : parsed) : bool :=
  match item with
  | PError e => negb (bool_decide (e = Unsupported))
  | PItem _ (Some (field_name, _)) => plain_name field_name
  | PItem _ None => true
  end.

Definition covered (format_string : string) : bool :=
  forallb covered_item (parse format_string).

(** [show_info_to st st' lines prev]: from [st] to [st'], the lines
    [lines] were printed and [_prev_info] became [prev]; beside these only
    the view and [old_status] may differ. *)
Definition show_info_to (st st' : State) (lines : list string) (prev : option string) : Prop :=
  world st' = set_stdout (stdout (world st) ++ lines) (world st) /\
  exists g status,
    self st' = set_gui g (set_old_status status (set_prev_info prev (self st))).

(** ** The command line (lines 359-404) *)

(** The namespace [_parse_args] returns: the path given with [--config],
    the format given with [--format], and the two switches, each [None]
    when the command line does not have it. *)
Record Args : Type := {
  args_config : option string;
  args_format : option string;
  args_markup_escape : option bool;
  args_dedupe : option bool
}.

(** The empty dictionary. *)
Definition empty_config : ConfigArg :=
  {| arg_format := None;
     arg_markup_escape := None;
     arg_status_icons := None;
     arg_mouse_buttons := None;
     arg_dedupe := None |}.

(** Lines 394-403 of [_main]: the configuration handed to the blocklet.
    [load path] stands for opening [os.path.abspath(path)] and
    [json.load]; it raises what they raise. *)
Definition main_config (load : string -> result ConfigArg) (args : Args) : result ConfigArg :=
  config ← match args_config args with
           | Some path =>
               if bool_decide (path ≠ EmptyString) then load path else Ok empty_config
           | None => Ok empty_config
           end;
  let config :=
    match args_format args with
    | Some value =>
        {| arg_format := Some value;
           arg_markup_escape := arg_markup_escape config;
           arg_status_icons := arg_status_icons config;
           arg_mouse_buttons := arg_mouse_buttons config;
           arg_dedupe := arg_dedupe config |}
    | None => config
    end in
  let config :=
    match args_markup_escape args with
    | Some value =>
        {| arg_format := arg_format config;
           arg_markup_escape := Some value;
           arg_status_icons := arg_status_icons config;
           arg_mouse_buttons := arg_mouse_buttons config;
           arg_dedupe := arg_dedupe config |}
    | None => config
    end in
  let config :=
    match args_dedupe args with
    | Some value =>
        {| arg_format := arg_format config;
           arg_markup_escape := arg_markup_escape config;
           arg_status_icons := arg_status_icons config;
           arg_mouse_buttons := arg_mouse_buttons config;
           arg_dedupe := Some value |}
    | None => config
    end in
  Ok config.

(** [_main]: the blocklet of that configuration, run for ever; how the
    call ends and what the process has done by then. *)
Definition _main {ops : StrOps} (load : string -> result ConfigArg) (args : Args)
    (fuel : nat) (w : World) : outcome unit * World :=
  match main_config load args with
  | Ok config =>
      let '(o, st) := run true true fuel (mkState (__init__ (Some config)) w) in
      (o, world st)
  | Raise e => (Raised e, w)
  end.

(** The command line [--config f.json --no-dedupe] and a file that asks
    for de-duplication and markup escaping. *)
Definition args_no_dedupe : Args :=
  {| args_config := Some "f.json";
     args_format := None;
     args_markup_escape := None;
     args_dedupe := Some false |}.

Definition file_escaping : ConfigArg :=
  {| arg_format := None;
     arg_markup_escape := Some true;
     arg_status_icons := None;
     arg_mouse_buttons := None;
     arg_dedupe := Some true |}.

Definition load_file_escaping (path : string) : result ConfigArg :=
  if bool_decide (path = "f.json") then Ok file_escaping else Raise (ValueError path).

(** ** Notions the further properties are stated with *)

(** A call that came back, with a value or an exception. *)
Definition returns_or_raises {A} (o : outcome A) : Prop :=
  match o with
  | Return _ | Raised _ => True
  | Waiting | OutOfFuel => False
  end.

Definition comes_back {A} (m : M A) : Prop :=
  forall st o st', m st = (o, st') -> returns_or_raises o.

(** Two states of the process that differ at most in what was printed and
    what was logged. *)
Definition same_session (w w' : World) : Prop :=
  session_bus w' = session_bus w /\ player w' = player w /\
  urlopen w' = urlopen w /\ receivers w' = receivers w /\
  pending w' = pending w /\ slept w' = slept w.

(** [m] keeps [P]: when [P] holds before [m], it holds after, however [m]
    ends. *)
Definition keeps {A} (P : State -> Prop) (m : M A) : Prop :=
  forall st o st', P st -> m st = (o, st') -> P st'.

(** What the signal handlers can change: the retained line, the view, the
    status last shown in the view, and the output. *)
Definition view (st : State)
    : option string * option GUIManager.t * string * list string :=
  (_prev_info (self st), gui (self st), old_status (self st), stdout (world st)).

(** The retained line, when there is one, is the line printed last. *)
Definition prev_is_last (v : option string * option GUIManager.t * string * list string)
    : Prop :=
  match v with
  | (Some line, _, _, out) => exists front, out = (front ++ [line])%list
  | (None, _, _, _) => True
  end.


(** A sequence of lines without the ones that repeat the line before
    them, [prev] being the line before the first. *)
Fixpoint compress (prev : option string) (lines : list string) : list string :=
  match lines with
  | [] => []
  | line :: lines' =>
      if bool_decide (prev = Some line) then compress prev lines'
      else line :: compress (Some line) lines'
  end.

(** The handler [on_properties_changed] called on one payload after the
    other, each with both keys. *)
Definition feed {ops : StrOps} (iface : string) (inv : list string)
    (payloads : list (string * metadata)) (st : State) : State :=
  fold_left
    (fun st payload =>
       exec (on_properties_changed iface
               {| changed_PlaybackStatus := Some (fst payload);
                  changed_Metadata := Some (snd payload) |} inv) st)
    payloads st.

(** The characters [html.escape] rewrites. *)
Definition special (c : ascii) : bool :=
  Ascii.eqb c "&" || Ascii.eqb c "<" || Ascii.eqb c ">" || Ascii.eqb c "034"
  || Ascii.eqb c "'".

Fixpoint clean (s : string) : bool :=
  match s with
  | EmptyString => true
  | String c s' => negb (special c) && clean s'
  end.

(** The signals of a script, up to the first interrupt. *)
Fixpoint no_interrupt (events : list event) : bool :=
  match events with
  | [] => true
  | Interrupt :: _ => false
  | _ :: events' => no_interrupt events'
  end.

(** * Properties *)

(** ** Strings *)

Lemma append_assoc (a b c : string) : (a ++ b) ++ c = a ++ (b ++ c).
Proof. induction a as [|x a IH]; simpl; [reflexivity|]. rewrite IH. reflexivity. Qed.

Lemma append_empty_r (a : string) : a ++ EmptyString = a.
Proof. induction a as [|x a IH]; simpl; [reflexivity|]. rewrite IH. reflexivity. Qed.

Lemma split_nonempty sep s : split sep s <> [].
Proof.
  destruct s as [|c s]; simpl; [discriminate|].
  destruct (Ascii.eqb c sep); [discriminate|].
  destruct (split sep s); discriminate.
Qed.

Lemma split_app_sep sep a b :
  split sep (a ++ String sep b) = (split sep a ++ split sep b)%list.
Proof.
  induction a as [|c a IH]; simpl.
  - rewrite Ascii.eqb_refl. reflexivity.
  - destruct (Ascii.eqb c sep); rewrite IH; [reflexivity|].
    pose proof (split_nonempty sep a) as Hne.
    destruct (split sep a) as [|seg segs]; [contradiction|reflexivity].
Qed.

Lemma split_no_sep sep s : occurs sep s = false -> split sep s = [s].
Proof.
  induction s as [|c s IH]; simpl; [reflexivity|].
  intros H. apply orb_false_iff in H as [Hc Hs].
  rewrite Hc, (IH Hs). reflexivity.
Qed.

Lemma last_app_nonempty {A} (l1 l2 : list A) d :
  l2 <> [] -> List.last (l1 ++ l2)%list d = List.last l2 d.
Proof.
  intros Hne. induction l1 as [|x l1 IH]; simpl; [reflexivity|].
  destruct (l1 ++ l2)%list eqn:E; [|exact IH].
  apply app_eq_nil in E as [_ E]. contradiction.
Qed.

(** The last segment of [a/b], where [b] holds no separator, is [b]. *)
Lemma last_segment_after sep a b :
  occurs sep b = false ->
  List.last (split sep (a ++ String sep b)) EmptyString = b.
Proof.
  intros Hb. rewrite split_app_sep, last_app_nonempty by apply split_nonempty.
  rewrite (split_no_sep _ _ Hb). reflexivity.
Qed.

(** Every string is a separator-free segment, alone or after a separator. *)
Lemma last_separator sep s :
  occurs sep s = false \/
  exists a b, s = a ++ String sep b /\ occurs sep b = false.
Proof.
  induction s as [|c s IH]; simpl; [left; reflexivity|].
  destruct IH as [Hs | (a & b & -> & Hb)].
  - destruct (Ascii.eqb c sep) eqn:Hc.
    + right. exists EmptyString, s. apply Ascii.eqb_eq in Hc as ->. auto.
    + left. exact Hs.
  - right. exists (String c a), b. auto.
Qed.

Lemma replace_app old new a b :
  replace old new (a ++ b) = replace old new a ++ replace old new b.
Proof.
  induction a as [|c a IH]; simpl; [reflexivity|].
  rewrite IH. destruct (Ascii.eqb c old); simpl; [|reflexivity].
  symmetry. apply append_assoc.
Qed.

(** The five replacements of [html_escape], done one after the other with
    the ampersand first, amount to one pass that rewrites each of the five
    characters and leaves the others. *)
Lemma html_escape_one_pass s : html_escape s = escape_chars s.
Proof.
  unfold html_escape. induction s as [|c s IH]; [reflexivity|].
  cbn [replace escape_chars]. unfold escape_char.
  destruct (Ascii.eqb c "&") eqn:E1.
  { rewrite !replace_app, IH. reflexivity. }
  cbn [replace].
  destruct (Ascii.eqb c "<") eqn:E2.
  { rewrite !replace_app, IH. reflexivity. }
  cbn [replace].
  destruct (Ascii.eqb c ">") eqn:E3.
  { rewrite !replace_app, IH. reflexivity. }
  cbn [replace].
  destruct (Ascii.eqb c "034") eqn:E4.
  { rewrite !replace_app, IH. reflexivity. }
  cbn [replace].
  destruct (Ascii.eqb c "'") eqn:E5; rewrite IH; reflexivity.
Qed.

(** ** The album-art address *)

Lemma old_url_to_new_no_slash s :
  occurs "/" s = false -> old_url_to_new s = new_base_url ++ s.
Proof.
  intros H. unfold old_url_to_new. rewrite (split_no_sep _ _ H). reflexivity.
Qed.

Lemma old_url_to_new_after_slash a b :
  occurs "/" b = false -> old_url_to_new (a ++ String "/" b) = new_base_url ++ b.
Proof.
  intros H. unfold old_url_to_new. rewrite (last_segment_after _ _ _ H). reflexivity.
Qed.

(** C9.  [old_url_to_new] keeps the last [/]-separated segment of the
    address, the text after the last slash or the whole text when there is
    no slash, and puts [https://i.scdn.co/image/] in front of it; it sends
    [https://open.spotify.com/image/abc123] to
    [https://i.scdn.co/image/abc123]; and it is idempotent on every
    string. *)
Theorem old_url_to_new_last_segment_idempotent :
  (forall url, exists song_id,
      occurs "/" song_id = false /\
      (url = song_id \/ exists front, url = front ++ String "/" song_id) /\
      old_url_to_new url = "https://i.scdn.co/image/" ++ song_id) /\
  old_url_to_new "https://open.spotify.com/image/abc123"
    = "https://i.scdn.co/image/abc123" /\
  (forall url, old_url_to_new (old_url_to_new url) = old_url_to_new url).
Proof.
  assert (Hseg : forall url, exists song_id,
      occurs "/" song_id = false /\
      (url = song_id \/ exists front, url = front ++ String "/" song_id) /\
      old_url_to_new url = "https://i.scdn.co/image/" ++ song_id).
  { intros url. destruct (last_separator "/" url) as [H | (a & b & -> & H)].
    - exists url. split; [exact H|]. split; [left; reflexivity|].
      apply old_url_to_new_no_slash, H.
    - exists b. split; [exact H|]. split; [right; exists a; reflexivity|].
      apply old_url_to_new_after_slash, H. }
  split; [exact Hseg|]. split; [reflexivity|].
  intros url. destruct (Hseg url) as (song_id & Hno & _ & ->).
  change ("https://i.scdn.co/image/" ++ song_id)
    with ("https://i.scdn.co/image" ++ String "/" song_id).
  apply old_url_to_new_after_slash, Hno.
Qed.

(** ** The formatter *)

Section FormatterProperties.
Context {ops : StrOps}.



(** What [format_field] raises is a [KeyError] or an [AttributeError]. *)
Lemma format_field_raises self value format_spec e :
  Formatter.format_field self value format_spec = Raise e -> e <> Unsupported.
Proof.
  unfold Formatter.format_field. destruct format_spec as [|c spec]; [discriminate|].
  destruct (Formatter._FORMAT_FUNCS !! String c spec) as [[f|name]|]; cbn.
  - discriminate.
  - unfold Formatter.getattr. case_decide; cbn; [discriminate|].
    intros [= <-]. discriminate.
  - intros [= <-]. discriminate.
Qed.

Lemma get_field_raises field_name kwargs e :
  plain_name field_name = true ->
  get_field field_name kwargs = Raise e -> e <> Unsupported.
Proof.
  unfold get_field. intros ->. destruct (kwargs !! field_name); cbn; [discriminate|].
  intros [= <-]. discriminate.
Qed.



Lemma get_field_status status artist title :
  get_field "status" {[ "status" := status; "artist" := artist; "title" := title ]}
    = Ok status.
Proof.
  unfold get_field. change (plain_name "status") with true. cbn iota.
  rewrite lookup_insert_eq. reflexivity.
Qed.

Lemma get_field_artist status artist title :
  get_field "artist" {[ "status" := status; "artist" := artist; "title" := title ]}
    = Ok artist.
Proof.
  unfold get_field. change (plain_name "artist") with true. cbn iota.
  rewrite lookup_insert_ne by discriminate. rewrite lookup_insert_eq. reflexivity.
Qed.

Lemma get_field_title status artist title :
  get_field "title" {[ "status" := status; "artist" := artist; "title" := title ]}
    = Ok title.
Proof.
  unfold get_field. change (plain_name "title") with true. cbn iota.
  rewrite !lookup_insert_ne by discriminate. rewrite lookup_singleton_eq. reflexivity.
Qed.

(** The default format: the artists, a dash, the title. *)
Lemma render_default_format icons escape status artists title album url :
  render (Formatter.__init__ (format DEFAULT_CONFIG) icons escape) status
         {| xesam_artist := Some artists; xesam_title := Some title;
            xesam_album := album; mpris_artUrl := url |}
    = Ok ((if escape then html_escape (join ", " artists) else join ", " artists)
          ++ " " ++ en_dash ++ " "
          ++ (if escape then html_escape title else title)).
Proof.
  unfold render, Formatter.__call__, Formatter.format. cbn.
  rewrite get_field_artist, get_field_title. cbn.
  rewrite append_empty_r. reflexivity.
Qed.


End FormatterProperties.

(** ** The blocklet *)

#[local] Arguments GUIManager.update_from_spotify_block : simpl never.
#[local] Arguments GUIManager.update_play_button_text : simpl never.

Section BlockletProperties.
Context {ops : StrOps}.

Lemma show_info_to_refl st : show_info_to st st [] (_prev_info (self st)).
Proof.
  destruct st as [b w]. split; cbn.
  - rewrite app_nil_r. destruct w; reflexivity.
  - exists (gui b), (old_status b). destruct b; reflexivity.
Qed.

Lemma update_play_button_text_ok status g :
  exists g', GUIManager.update_play_button_text status g = (Ok tt, g').
Proof. unfold GUIManager.update_play_button_text. case_decide; eexists; reflexivity. Qed.

(** What [show_info] does once the line is rendered: it prints the line
    and records it, or does neither; whether the view then fails makes no
    difference to that. *)
Lemma show_info_effect status metadata only_if_changed st info o st' :
  render (_formatter (self st)) status metadata = Ok info ->
  show_info status metadata only_if_changed st = (o, st') ->
  let emit := negb only_if_changed || bool_decide (_prev_info (self st) ≠ Some info) in
  show_info_to st st' (if emit then [info] else [])
               (if emit then Some info else _prev_info (self st)).
Proof.
  intros Hrender. destruct st as [b w].
  unfold show_info, bind, get_self, lift, call_gui, print_line, modify_self,
    modify_world, ret. cbn. cbn in Hrender. rewrite Hrender.
  destruct b as [fmt mb dd prev th [g|] os lp bs sp]; cbn;
    destruct (negb only_if_changed || bool_decide (prev ≠ Some info)) eqn:Hemit;
    destruct (decide (os ≠ status)); cbn;
    repeat match goal with
           | |- context [GUIManager.update_play_button_text ?a ?g] =>
               destruct (update_play_button_text_ok a g) as [? ->]; cbn
           end;
    rewrite ?Hemit; cbn;
    repeat match goal with
           | |- context [GUIManager.update_from_spotify_block ?u ?r ?a ?g] =>
               destruct (GUIManager.update_from_spotify_block u r a g) as [[|] ?]; cbn
           end;
    intros [= <- <-]; (split; cbn; [try rewrite app_nil_r; destruct w; reflexivity|]);
    eexists _, _; reflexivity.
Qed.

Lemma show_info_to_fields st st' lines prev :
  show_info_to st st' lines prev ->
  stdout (world st') = (stdout (world st) ++ lines)%list /\
  _prev_info (self st') = prev /\
  _formatter (self st') = _formatter (self st) /\
  _dedupe (self st') = _dedupe (self st) /\
  pending (world st') = pending (world st) /\
  logged (world st') = logged (world st) /\
  receivers (world st') = receivers (world st).
Proof.
  intros [Hw (g & status & Hs)]. rewrite Hw, Hs. repeat split.
Qed.

Lemma on_properties_changed_effect iface status metadata inv st info o st' :
  render (_formatter (self st)) status metadata = Ok info ->
  on_properties_changed iface
    {| changed_PlaybackStatus := Some status; changed_Metadata := Some metadata |} inv st
    = (o, st') ->
  let emit := negb (_dedupe (self st)) || bool_decide (_prev_info (self st) ≠ Some info) in
  show_info_to st st' (if emit then [info] else [])
               (if emit then Some info else _prev_info (self st)).
Proof.
  intros Hrender. unfold on_properties_changed, bind, lift, get_self. cbn.
  apply show_info_effect, Hrender.
Qed.

Lemma on_properties_changed_exec iface status metadata inv st info :
  render (_formatter (self st)) status metadata = Ok info ->
  let st' := exec (on_properties_changed iface
               {| changed_PlaybackStatus := Some status; changed_Metadata := Some metadata |}
               inv) st in
  let emit := negb (_dedupe (self st)) || bool_decide (_prev_info (self st) ≠ Some info) in
  stdout (world st') = (stdout (world st) ++ if emit then [info] else [])%list /\
  _prev_info (self st') = (if emit then Some info else _prev_info (self st)) /\
  _formatter (self st') = _formatter (self st) /\
  _dedupe (self st') = _dedupe (self st).
Proof.
  intros Hrender st' emit. subst st'. unfold exec.
  destruct (on_properties_changed _ _ _ st) as [o st'] eqn:E.
  apply (on_properties_changed_effect _ _ _ _ _ _ _ _ Hrender) in E.
  apply show_info_to_fields in E as (H1 & H2 & H3 & H4 & _). cbn [snd]. auto.
Qed.

(** C1.  Through [on_properties_changed] with [_dedupe] set, a rendered
    line is printed exactly when it differs from [_prev_info], which is
    [None] when there is no previous line, and a printed line becomes the
    new [_prev_info].  Four events that render to the lines A, A, B, A,
    with A and B different and no previous line, print A, B, A when
    [_dedupe] is set and A, A, B, A when it is not. *)
Theorem dedupe_prints_changed_lines
    (st : State) (iface : string) (inv : list string)
    (s1 s2 s3 s4 : string) (m1 m2 m3 m4 : metadata) (A B : string) :
  let event := fun s m =>
    on_properties_changed iface
      {| changed_PlaybackStatus := Some s; changed_Metadata := Some m |} inv in
  render (_formatter (self st)) s1 m1 = Ok A ->
  render (_formatter (self st)) s2 m2 = Ok A ->
  render (_formatter (self st)) s3 m3 = Ok B ->
  render (_formatter (self st)) s4 m4 = Ok A ->
  A <> B ->
  _prev_info (self st) = None ->
  (forall st0 s m line,
      render (_formatter (self st0)) s m = Ok line ->
      _dedupe (self st0) = true ->
      let st1 := exec (event s m) st0 in
      (_prev_info (self st0) <> Some line ->
       stdout (world st1) = (stdout (world st0) ++ [line])%list /\
       _prev_info (self st1) = Some line) /\
      (_prev_info (self st0) = Some line ->
       stdout (world st1) = stdout (world st0) /\
       _prev_info (self st1) = Some line)) /\
  let st4 := exec (event s4 m4) (exec (event s3 m3) (exec (event s2 m2)
               (exec (event s1 m1) st))) in
  stdout (world st4)
    = (stdout (world st) ++ if _dedupe (self st) then [A; B; A] else [A; A; B; A])%list.
Proof.
  intros event H1 H2 H3 H4 HAB Hprev. split.
  - intros st0 s m line Hr Hd st1. subst st1 event. cbn beta.
    destruct (on_properties_changed_exec iface s m inv st0 line Hr) as (Ho & Hp & _).
    rewrite Hd in Ho, Hp. cbn [negb orb] in Ho, Hp. split; intros Hcmp.
    + rewrite bool_decide_eq_true_2 in Ho, Hp by exact Hcmp. auto.
    + rewrite bool_decide_eq_false_2 in Ho, Hp by (intros Hn; exact (Hn Hcmp)).
      rewrite app_nil_r in Ho. rewrite Hp. auto.
  - subst event. cbn beta zeta.
    set (st1 := exec _ st).
    destruct (on_properties_changed_exec iface s1 m1 inv st A H1) as (Ho1 & Hp1 & Hf1 & Hd1).
    fold st1 in Ho1, Hp1, Hf1, Hd1.
    set (st2 := exec _ st1). rewrite <- Hf1 in H2.
    destruct (on_properties_changed_exec iface s2 m2 inv st1 A H2) as (Ho2 & Hp2 & Hf2 & Hd2).
    fold st2 in Ho2, Hp2, Hf2, Hd2.
    set (st3 := exec _ st2). rewrite <- Hf1, <- Hf2 in H3.
    destruct (on_properties_changed_exec iface s3 m3 inv st2 B H3) as (Ho3 & Hp3 & Hf3 & Hd3).
    fold st3 in Ho3, Hp3, Hf3, Hd3.
    set (st4 := exec _ st3). rewrite <- Hf1, <- Hf2, <- Hf3 in H4.
    destruct (on_properties_changed_exec iface s4 m4 inv st3 A H4) as (Ho4 & Hp4 & _).
    fold st4 in Ho4, Hp4.
    rewrite Hd3, Hd2, Hd1 in Ho4. rewrite Hd2, Hd1 in Ho3, Hp3.
    rewrite Hd1 in Ho2, Hp2. rewrite Hprev in Ho1, Hp1.
    rewrite bool_decide_eq_true_2, orb_true_r in Ho1, Hp1 by discriminate.
    rewrite Hp1 in Ho2, Hp2.
    rewrite (bool_decide_eq_false_2 (Some A ≠ Some A)) in Ho2, Hp2 by (intros Hn; apply Hn; reflexivity).
    rewrite orb_false_r in Ho2, Hp2.
    assert (HAB' : Some A ≠ Some B) by (intros [= ?]; contradiction).
    assert (HBA' : Some B ≠ Some A) by (intros [= ?]; apply HAB; congruence).
    destruct (_dedupe (self st)); cbn [negb] in *.
    + rewrite Hp2 in Ho3, Hp3.
      rewrite bool_decide_eq_true_2 in Ho3, Hp3 by exact HAB'. cbn in Ho3, Hp3.
      rewrite Hp3 in Ho4. rewrite bool_decide_eq_true_2 in Ho4 by exact HBA'. cbn in Ho4.
      rewrite Ho4, Ho3, Ho2, Ho1. rewrite app_nil_r, <- !app_assoc. reflexivity.
    + cbn in Ho2, Ho3, Ho4. rewrite Ho4, Ho3, Ho2, Ho1. rewrite <- !app_assoc. reflexivity.
Qed.

(** C4, as the program has it.  With [_dedupe] off, every rendered line
    is printed, whatever [_prev_info] holds, and the printed line is
    stored in [_prev_info]. *)
Theorem no_dedupe_prints_and_records
    (st : State) (iface : string) (inv : list string)
    (status : string) (metadata : metadata) (line : string) :
  _dedupe (self st) = false ->
  render (_formatter (self st)) status metadata = Ok line ->
  let st' := exec (on_properties_changed iface
               {| changed_PlaybackStatus := Some status; changed_Metadata := Some metadata |}
               inv) st in
  stdout (world st') = (stdout (world st) ++ [line])%list /\
  _prev_info (self st') = Some line.
Proof.
  intros Hd Hr st'. subst st'.
  destruct (on_properties_changed_exec iface status metadata inv st line Hr) as (Ho & Hp & _).
  rewrite Hd in Ho, Hp. cbn in Ho, Hp. auto.
Qed.

(** C10.  A [NameOwnerChanged] signal with a new owner is ignored: the
    handler returns, and nothing was printed and no field changed. *)
Theorem new_owner_changes_nothing (st : State) (name old_owner new_owner : string) :
  new_owner <> EmptyString ->
  on_name_owner_changed name old_owner new_owner st = (Return tt, st).
Proof.
  intros Hnew. unfold on_name_owner_changed.
  rewrite (bool_decide_eq_true_2 _ Hnew). cbn. rewrite andb_false_r. reflexivity.
Qed.


(** C7, as the program has it.  When the payload lacks [PlaybackStatus]
    or [Metadata], the handler raises [KeyError] on the first key that is
    missing and leaves the blocklet and the output as they were: the
    property is not read again and nothing is rendered or printed.  The
    dispatcher logs the exception and the main loop goes on. *)
Theorem incomplete_event_raises_key_error
    (st : State) (iface : string) (payload : changed_properties) (inv : list string) :
  changed_PlaybackStatus payload = None \/ changed_Metadata payload = None ->
  let key := match changed_PlaybackStatus payload with
             | None => "PlaybackStatus"
             | Some _ => "Metadata"
             end in
  on_properties_changed iface payload inv st = (Raised (KeyError key), st) /\
  deliver (on_properties_changed iface payload inv) st
    = (Return tt,
       mkState (self st) (set_logged (logged (world st) ++ [KeyError key]) (world st))).
Proof.
  intros Hmissing key.
  assert (Hraise : on_properties_changed iface payload inv st = (Raised (KeyError key), st)).
  { subst key. unfold on_properties_changed, bind, lift. cbn.
    destruct (changed_PlaybackStatus payload) as [status|]; cbn; [|reflexivity].
    destruct Hmissing as [[=]| ->]. reflexivity. }
  split; [exact Hraise|]. unfold deliver. rewrite Hraise. reflexivity.
Qed.

(** *** Output only grows *)

Lemma extends_refl st : extends st st.
Proof. exists []. rewrite app_nil_r. reflexivity. Qed.

Lemma extends_trans st1 st2 st3 : extends st1 st2 -> extends st2 st3 -> extends st1 st3.
Proof.
  intros [l1 H1] [l2 H2]. exists (l1 ++ l2)%list. rewrite H2, H1, app_assoc. reflexivity.
Qed.

Lemma show_info_extends status metadata only_if_changed st o st' :
  show_info status metadata only_if_changed st = (o, st') -> extends st st'.
Proof.
  destruct (render (_formatter (self st)) status metadata) as [info|e] eqn:Hr.
  - intros H. apply (show_info_effect _ _ _ _ _ _ _ Hr) in H.
    apply show_info_to_fields in H as (H & _). eexists. exact H.
  - unfold show_info, bind, get_self, lift. rewrite Hr.
    intros [= <- <-]. apply extends_refl.
Qed.

Lemma handler_of_extends ev st o st' :
  handler_of ev st = (o, st') -> extends st st'.
Proof.
  destruct ev as [iface payload inv|name old_owner new_owner|]; cbn [handler_of].
  - unfold on_properties_changed, bind, lift, get_self.
    destruct payload as [[status|] [metadata|]]; cbn;
      try (intros [= <- <-]; apply extends_refl).
    apply show_info_extends.
  - unfold on_name_owner_changed.
    destruct (_ && _); [|intros [= <- <-]; apply extends_refl].
    intros [= <- <-]. exists [EmptyString]. reflexivity.
  - intros [= <- <-]. apply extends_refl.
Qed.

Lemma deliver_extends handler st o st' :
  (forall st o st', handler st = (o, st') -> extends st st') ->
  deliver handler st = (o, st') -> extends st st'.
Proof.
  intros Hh. unfold deliver. destruct (handler st) as [[a|e| |] st1] eqn:E;
    intros [= <- <-]; apply Hh in E; exact E.
Qed.

Lemma deliver_to_extends n handler st o st' :
  (forall st o st', handler st = (o, st') -> extends st st') ->
  deliver_to n handler st = (o, st') -> extends st st'.
Proof.
  intros Hh. revert st o st'. induction n as [|n IH]; intros st o st'; cbn [deliver_to].
  - intros [= <- <-]. apply extends_refl.
  - unfold bind. destruct (deliver handler st) as [r st1] eqn:E.
    apply (deliver_extends _ _ _ _ Hh) in E.
    destruct r as [a|e| |]; try (intros [= <- <-]; exact E).
    intros H. eapply extends_trans; [exact E|]. eapply IH, H.
Qed.

Lemma dispatch_extends events st o st' :
  dispatch events st = (o, st') -> extends st st'.
Proof.
  revert st o st'. induction events as [|ev events IH]; intros st o st'; cbn [dispatch].
  - intros [= <- <-]. apply extends_refl.
  - assert (Hstep : forall st1 o1 st1',
              (deliver_to (receivers (world st1)) (handler_of ev);;; dispatch events) st1
                = (o1, st1') -> extends st1 st1').
    { intros st1 o1 st1'. unfold bind.
      destruct (deliver_to _ _ st1) as [r st2] eqn:E.
      apply (deliver_to_extends _ _ _ _ _ (handler_of_extends ev)) in E.
      destruct r as [a|e| |]; try (intros [= <- <-]; exact E).
      intros H. eapply extends_trans; [exact E|]. eapply IH, H. }
    destruct ev as [iface payload inv|name old_owner new_owner|].
    + intros H. apply (extends_trans _ (mkState (self st) (set_pending events (world st)))).
      { exists []. cbn. rewrite app_nil_r. reflexivity. }
      eapply Hstep. exact H.
    + intros H. apply (extends_trans _ (mkState (self st) (set_pending events (world st)))).
      { exists []. cbn. rewrite app_nil_r. reflexivity. }
      eapply Hstep. exact H.
    + intros [= <- <-]. exists []. cbn. rewrite app_nil_r. reflexivity.
Qed.

Lemma loop_run_extends st o st' : loop_run st = (o, st') -> extends st st'.
Proof. unfold loop_run, bind, get_world. apply dispatch_extends. Qed.

(** *** Connecting *)

(** The blocklet when [_run] has set up the connection and is about to
    show the initial line. *)
Lemma run_reaches_initial_info st :
  session_bus (world st) = true ->
  _run st = (show_initial_info;;; loop_run)
              (mkState (set_spotify true (set_bus true (self st)))
                       (set_receivers (S (receivers (world st))) (world st))).
Proof.
  intros Hbus. unfold _run, bind at 1, get_world. rewrite Hbus. reflexivity.
Qed.

Lemma show_initial_info_connected st pl :
  spotify (self st) = true -> player (world st) = Some pl ->
  show_initial_info st
    = show_info (player_PlaybackStatus pl) (player_Metadata pl) false st.
Proof.
  intros Hsp Hpl. unfold show_initial_info, bind, get_property, read_property.
  rewrite Hsp, Hpl. reflexivity.
Qed.

(** C2, as the program has it.  When the session bus and the player
    answer, [_run] reads [PlaybackStatus] and [Metadata], renders them
    and prints the line whatever [_dedupe] and [_prev_info] are, and
    records it in [_prev_info]; only then does it enter the main loop, so
    the line comes before anything a signal prints.  For the status
    Playing, the artists A and B, the title T and the default
    configuration the first line printed is [A, B – T]. *)
Theorem connect_prints_initial_info (st : State) (pl : Player) (line : string) :
  session_bus (world st) = true ->
  player (world st) = Some pl ->
  render (_formatter (self st)) (player_PlaybackStatus pl) (player_Metadata pl) = Ok line ->
  (exists (o : outcome unit) (st1 : State),
      _run st = (((fun _ => (o, st1)) : M unit);;; loop_run) st /\
      stdout (world st1) = (stdout (world st) ++ [line])%list /\
      _prev_info (self st1) = Some line /\
      pending (world st1) = pending (world st) /\
      logged (world st1) = logged (world st)) /\
  (exists lines, stdout (world (exec _run st)) = (stdout (world st) ++ line :: lines)%list) /\
  render (_formatter (__init__ None)) "Playing" (track ["A"; "B"] "T") = Ok line_AB_T /\
  (forall events, exists lines,
      stdout (world (exec _run (fresh (session events)))) = line_AB_T :: lines).
Proof.
  assert (Hgen : forall st pl line,
    session_bus (world st) = true ->
    player (world st) = Some pl ->
    render (_formatter (self st)) (player_PlaybackStatus pl) (player_Metadata pl) = Ok line ->
    (exists (o : outcome unit) (st1 : State),
      _run st = (((fun _ => (o, st1)) : M unit);;; loop_run) st /\
      stdout (world st1) = (stdout (world st) ++ [line])%list /\
      _prev_info (self st1) = Some line /\
      pending (world st1) = pending (world st) /\
      logged (world st1) = logged (world st)) /\
    (exists lines, stdout (world (exec _run st)) = (stdout (world st) ++ line :: lines)%list)).
  { clear st pl line. intros st pl line Hbus Hpl Hr. unfold exec.
    rewrite (run_reaches_initial_info _ Hbus).
    set (st0 := mkState _ _).
    assert (Hshow : show_initial_info st0
              = show_info (player_PlaybackStatus pl) (player_Metadata pl) false st0)
      by (apply show_initial_info_connected; [reflexivity|exact Hpl]).
    destruct (show_initial_info st0) as [o st1] eqn:E.
    symmetry in Hshow.
    apply (show_info_effect _ _ _ st0 line _ _ Hr) in Hshow.
    apply show_info_to_fields in Hshow as (Ho & Hp & _ & _ & Hpe & Hlg & _).
    cbn in Ho, Hp, Hpe, Hlg.
    assert (Hrun : (show_initial_info;;; loop_run) st0
                   = (((fun _ => (o, st1)) : M unit);;; loop_run) st).
    { unfold bind. rewrite E. reflexivity. }
    split.
    - exists o, st1. auto.
    - rewrite Hrun. unfold bind.
      destruct o as [[]|e| |]; cbn [snd];
        try (exists []; exact Ho).
      destruct (loop_run st1) as [o2 st2] eqn:E2. cbn [snd].
      apply loop_run_extends in E2 as [lines E2]. exists lines.
      rewrite E2, Ho, <- app_assoc. reflexivity. }
  assert (Hline : render (_formatter (__init__ None)) "Playing" (track ["A"; "B"] "T")
                  = Ok line_AB_T).
  { unfold track. cbn [__init__ _formatter DEFAULT_CONFIG format markup_escape status_icons].
    change (format DEFAULT_CONFIG) with ("{artist} " ++ en_dash ++ " {title}").
    pose proof (render_default_format (Some (status_icons DEFAULT_CONFIG)) false "Playing"
                  ["A"; "B"] "T" (Some "Album")
                  (Some "https://open.spotify.com/image/abc123")) as H.
    exact H. }
  intros Hbus Hpl Hr. destruct (Hgen st pl line Hbus Hpl Hr) as [H1 H2].
  split; [exact H1|]. split; [exact H2|]. split; [exact Hline|].
  intros events.
  destruct (Hgen (fresh (session events)) playing_AB_T line_AB_T
              eq_refl eq_refl Hline) as [_ H].
  exact H.
Qed.

(** C5, as the program has it.  In a single run ([forever] false) a
    connection that fails, because the session bus cannot be reached or
    because the player does not answer, is not tried again: [run] sleeps
    one second, quits the loop and returns to its caller; the failure is
    not passed on.  Nothing is printed. *)
Theorem single_run_swallows_connection_failure
    (st : State) (init_loop_arg : bool) (fuel : nat) :
  init_loop_arg = true \/ loop (self st) <> None ->
  _handle_input_thread (self st) = false ->
  session_bus (world st) = false \/ player (world st) = None ->
  exists st',
    run init_loop_arg false (S fuel) st = (Return tt, st') /\
    slept (world st') = slept (world st) + 1 /\
    stdout (world st') = stdout (world st) /\
    loop (self st') = Some {| quit_called := true |}.
Proof.
  intros Hloop Hthread Hfail. destruct st as [b w]. cbn in Hloop, Hthread, Hfail.
  assert (Hattempt : forall b0,
            exists b1 w1,
              attempt false (mkState b0 w) = (Return Break, mkState b1 w1) /\
              slept w1 = slept w + 1 /\ stdout w1 = stdout w).
  { intros b0. unfold attempt, _run, bind at 1, get_world. cbn.
    destruct (session_bus w) eqn:Hbus.
    - destruct Hfail as [[=]|Hpl].
      unfold bind, modify_self, connect_to_dbus_signals, modify_world, show_initial_info,
        get_property, read_property, bind, raise. cbn. rewrite Hpl. cbn.
      eexists _, _. split; [reflexivity|]. split; reflexivity.
    - unfold bind, raise. cbn. eexists _, _. split; [reflexivity|]. split; reflexivity. }
  assert (Hstart : exists b0,
            run init_loop_arg false (S fuel) (mkState b w)
              = (while_true false (S fuel);;;
                 modify_self (set_loop (Some {| quit_called := true |}))) (mkState b0 w)).
  { unfold run. destruct b as [fmt mb dd prev th g os lp bs sp]. cbn in Hloop, Hthread.
    subst th. destruct init_loop_arg.
    - eexists. reflexivity.
    - destruct Hloop as [[=]|Hlp]. destruct lp as [l|]; [|contradiction].
      eexists. reflexivity. }
  destruct Hstart as (b0 & ->).
  destruct (Hattempt b0) as (b1 & w1 & Hatt & Hsl & Hout).
  unfold bind at 1. cbn [while_true]. unfold bind at 1. rewrite Hatt.
  eexists. split; [reflexivity|]. cbn. auto.
Qed.

End BlockletProperties.

(** ** The properties at sample inputs *)

(** C1 at the default blocklet: the tracks of artist A, A, B, A print
    three lines. *)
Lemma dedupe_prints_changed_lines_witness :
  let event := fun artist =>
    on_properties_changed (ops := ascii_ops) PROPERTIES_INTERFACE
      {| changed_PlaybackStatus := Some "Playing";
         changed_Metadata := Some (track [artist] "T") |} [] in
  stdout (world (exec (event "A") (exec (event "B") (exec (event "A") (exec (event "A")
            (fresh (session [])))))))
    = ["A " ++ en_dash ++ " T"; "B " ++ en_dash ++ " T"; "A " ++ en_dash ++ " T"].
Proof.
  refine (proj2 (dedupe_prints_changed_lines (ops := ascii_ops) (fresh (session []))
            PROPERTIES_INTERFACE [] "Playing" "Playing" "Playing" "Playing"
            (track ["A"] "T") (track ["A"] "T") (track ["B"] "T") (track ["A"] "T")
            ("A " ++ en_dash ++ " T") ("B " ++ en_dash ++ " T") _ _ _ _ _ _)).
  - vm_compute. reflexivity.
  - vm_compute. reflexivity.
  - vm_compute. reflexivity.
  - vm_compute. reflexivity.
  - vm_compute. discriminate.
  - reflexivity.
Defined.

(** C2: a blocklet that connects with [_dedupe] set and the line of the
    current track already in [_prev_info] prints that line again. *)
Lemma initial_info_is_not_deduplicated :
  ~ (forall (st : State) (pl : Player) (line : string),
        session_bus (world st) = true ->
        player (world st) = Some pl ->
        render (ops := ascii_ops) (_formatter (self st))
               (player_PlaybackStatus pl) (player_Metadata pl) = Ok line ->
        _dedupe (self st) = true ->
        _prev_info (self st) = Some line ->
        stdout (world (exec (_run (ops := ascii_ops)) st)) = stdout (world st)).
Proof.
  intros H.
  assert (Hout : stdout (world (exec (_run (ops := ascii_ops)) (reconnecting (session []))))
                 = stdout (world (reconnecting (session []))))
    by (apply (H (reconnecting (session [])) playing_AB_T line_AB_T);
        vm_compute; reflexivity).
  vm_compute in Hout. discriminate Hout.
Qed.

Lemma connect_prints_initial_info_witness :
  exists lines,
    stdout (world (exec (_run (ops := ascii_ops)) (fresh (session [Interrupt]))))
      = ([] ++ line_AB_T :: lines)%list.
Proof.
  refine (proj1 (proj2 (connect_prints_initial_info (ops := ascii_ops)
            (fresh (session [Interrupt])) playing_AB_T line_AB_T _ _ _))).
  - reflexivity.
  - reflexivity.
  - vm_compute. reflexivity.
Defined.



(** C4: with [_dedupe] off, an emission changes [_prev_info]. *)
Lemma no_dedupe_overwrites_prev_info :
  ~ (forall (st : State) (iface : string) (payload : changed_properties) (inv : list string),
        _dedupe (self st) = false ->
        _prev_info (self (exec (on_properties_changed (ops := ascii_ops) iface payload inv) st))
          = _prev_info (self st)).
Proof.
  intros H.
  specialize (H (mkState (__init__ (Some no_dedupe)) (session []))
                PROPERTIES_INTERFACE changed_AB_T [] eq_refl).
  vm_compute in H. discriminate H.
Qed.

Lemma no_dedupe_prints_and_records_witness :
  let st := mkState (set_prev_info (Some line_AB_T) (__init__ (Some no_dedupe))) (session []) in
  let st' := exec (on_properties_changed (ops := ascii_ops) PROPERTIES_INTERFACE
                     changed_AB_T []) st in
  stdout (world st') = [line_AB_T] /\ _prev_info (self st') = Some line_AB_T.
Proof.
  intros st.
  refine (no_dedupe_prints_and_records (ops := ascii_ops) st PROPERTIES_INTERFACE []
            "Playing" (track ["A"; "B"] "T") line_AB_T _ _).
  - reflexivity.
  - vm_compute. reflexivity.
Defined.

(** C5: without a session bus, a single run returns to its caller. *)
Lemma single_run_does_not_raise :
  ~ (forall (st : State) (fuel : nat),
        session_bus (world st) = false ->
        _handle_input_thread (self st) = false ->
        exists st', run (ops := ascii_ops) true false (S fuel) st
                    = (Raised DBusException, st')).
Proof.
  intros H. destruct (H (fresh no_bus) 0 eq_refl eq_refl) as [st' Hrun].
  vm_compute in Hrun. discriminate Hrun.
Qed.

Lemma single_run_swallows_connection_failure_witness :
  exists st',
    run (ops := ascii_ops) true false 1 (fresh no_bus) = (Return tt, st') /\
    slept (world st') = 0 + 1 /\
    stdout (world st') = [] /\
    loop (self st') = Some {| quit_called := true |}.
Proof.
  refine (single_run_swallows_connection_failure (ops := ascii_ops)
            (fresh no_bus) true 0 _ _ _).
  - left. reflexivity.
  - reflexivity.
  - left. reflexivity.
Defined.


(** C7: an event without [Metadata] prints nothing, though the player
    would answer a read. *)
Lemma incomplete_event_is_not_rendered :
  ~ (forall (st : State) (iface status : string) (inv : list string)
            (pl : Player) (line : string),
        spotify (self st) = true ->
        player (world st) = Some pl ->
        render (ops := ascii_ops) (_formatter (self st)) status (player_Metadata pl) = Ok line ->
        _prev_info (self st) = None ->
        stdout (world (exec (on_properties_changed (ops := ascii_ops) iface
                  {| changed_PlaybackStatus := Some status; changed_Metadata := None |} inv) st))
          = (stdout (world st) ++ [line])%list).
Proof.
  intros H.
  assert (Hout : stdout (world (exec (on_properties_changed (ops := ascii_ops)
                     PROPERTIES_INTERFACE changed_status_only []) (connected (session []))))
                 = (stdout (world (connected (session []))) ++ [line_AB_T])%list).
  { apply (H (connected (session [])) PROPERTIES_INTERFACE "Paused" [] playing_AB_T line_AB_T);
      vm_compute; reflexivity. }
  vm_compute in Hout. discriminate Hout.
Qed.

Lemma incomplete_event_raises_key_error_witness :
  on_properties_changed (ops := ascii_ops) PROPERTIES_INTERFACE changed_status_only []
    (connected (session []))
    = (Raised (KeyError "Metadata"), connected (session [])).
Proof.
  refine (proj1 (incomplete_event_raises_key_error (ops := ascii_ops)
            (connected (session [])) PROPERTIES_INTERFACE changed_status_only [] _)).
  right. reflexivity.
Defined.

(** C10 at the player taking its name. *)
Lemma new_owner_changes_nothing_witness :
  on_name_owner_changed BUS_NAME EmptyString ":1.42" (fresh (session []))
    = (Return tt, fresh (session [])).
Proof.
  refine (new_owner_changes_nothing (fresh (session [])) BUS_NAME EmptyString ":1.42" _).
  discriminate.
Defined.

(** * Further properties *)

(** ** Escaping *)

Lemma occurs_app c a b : occurs c (a ++ b) = occurs c a || occurs c b.
Proof.
  induction a as [|x a IH]; simpl; [reflexivity|].
  rewrite IH, orb_assoc. reflexivity.
Qed.

Lemma length_app (a b : string) : String.length (a ++ b) = String.length a + String.length b.
Proof. induction a as [|x a IH]; simpl; [reflexivity|]. rewrite IH. reflexivity. Qed.

Lemma escape_chars_app a b : escape_chars (a ++ b) = escape_chars a ++ escape_chars b.
Proof.
  induction a as [|x a IH]; simpl; [reflexivity|].
  rewrite IH. symmetry. apply append_assoc.
Qed.

(** None of [<], [>] and the quotes is left by the escaping; [c] is one
    of the four. *)
Lemma escape_char_removes c x :
  x <> "&"%char -> special x = true -> occurs x (escape_char c) = false.
Proof.
  intros Hamp Hx. unfold escape_char.
  destruct (Ascii.eqb c "&") eqn:E1; [|destruct (Ascii.eqb c "<") eqn:E2;
    [|destruct (Ascii.eqb c ">") eqn:E3; [|destruct (Ascii.eqb c "034") eqn:E4;
    [|destruct (Ascii.eqb c "'") eqn:E5]]]].
  1-5: unfold special in Hx;
    destruct (Ascii.eqb x "&") eqn:X1; [apply Ascii.eqb_eq in X1; contradiction|];
    destruct (Ascii.eqb x "<") eqn:X2; [apply Ascii.eqb_eq in X2; subst x; reflexivity|];
    destruct (Ascii.eqb x ">") eqn:X3; [apply Ascii.eqb_eq in X3; subst x; reflexivity|];
    destruct (Ascii.eqb x "034") eqn:X4; [apply Ascii.eqb_eq in X4; subst x; reflexivity|];
    destruct (Ascii.eqb x "'") eqn:X5; [apply Ascii.eqb_eq in X5; subst x; reflexivity|];
    discriminate.
  simpl. rewrite orb_false_r. apply Ascii.eqb_neq. intros ->.
  unfold special in Hx. rewrite E1, E2, E3, E4, E5 in Hx. discriminate.
Qed.

Lemma html_escape_removes s x :
  x <> "&"%char -> special x = true -> occurs x (html_escape s) = false.
Proof.
  intros Hamp Hx. rewrite html_escape_one_pass.
  induction s as [|c s IH]; simpl; [reflexivity|].
  rewrite occurs_app, IH, (escape_char_removes _ _ Hamp Hx). reflexivity.
Qed.

Lemma escape_char_length c :
  String.length (escape_char c) = 1 \/
  (special c = true /\ 1 < String.length (escape_char c)).
Proof.
  unfold escape_char, special.
  destruct (Ascii.eqb c "&"); [right; simpl; split; [reflexivity|lia]|].
  destruct (Ascii.eqb c "<"); [right; simpl; split; [reflexivity|lia]|].
  destruct (Ascii.eqb c ">"); [right; simpl; split; [reflexivity|lia]|].
  destruct (Ascii.eqb c "034"); [right; simpl; split; [reflexivity|lia]|].
  destruct (Ascii.eqb c "'"); [right; simpl; split; [reflexivity|lia]|].
  left. reflexivity.
Qed.

Lemma escape_chars_length s :
  String.length s <= String.length (escape_chars s) /\
  (clean s = false -> String.length s < String.length (escape_chars s)).
Proof.
  induction s as [|c s [IH1 IH2]]; simpl; [split; [lia|discriminate]|].
  rewrite length_app.
  destruct (escape_char_length c) as [H | [Hsp H]].
  - rewrite H. split; [lia|]. intros Hc. apply andb_false_iff in Hc as [Hc|Hc].
    + unfold escape_char, special in *.
      destruct (Ascii.eqb c "&"); [discriminate H|].
      destruct (Ascii.eqb c "<"); [discriminate H|].
      destruct (Ascii.eqb c ">"); [discriminate H|].
      destruct (Ascii.eqb c "034"); [discriminate H|].
      destruct (Ascii.eqb c "'"); [discriminate H|]. discriminate Hc.
    + specialize (IH2 Hc). lia.
  - split; intros; lia.
Qed.

Lemma escape_chars_clean s : clean s = true -> escape_chars s = s.
Proof.
  induction s as [|c s IH]; simpl; [reflexivity|].
  intros H. apply andb_true_iff in H as [Hc Hs]. rewrite (IH Hs).
  apply negb_true_iff in Hc. unfold special in Hc. unfold escape_char.
  destruct (Ascii.eqb c "&"); [discriminate|].
  destruct (Ascii.eqb c "<"); [discriminate|].
  destruct (Ascii.eqb c ">"); [discriminate|].
  destruct (Ascii.eqb c "034"); [discriminate|].
  destruct (Ascii.eqb c "'"); [discriminate|]. reflexivity.
Qed.

Lemma html_escape_fixes_clean s : html_escape s = s <-> clean s = true.
Proof.
  rewrite html_escape_one_pass. split.
  - intros H. destruct (clean s) eqn:Hc; [reflexivity|].
    destruct (escape_chars_length s) as [_ Hlt]. specialize (Hlt Hc).
    rewrite H in Hlt. lia.
  - apply escape_chars_clean.
Qed.

Lemma escape_chars_join artists :
  escape_chars (join ", " artists) = join ", " (map escape_chars artists).
Proof.
  unfold join. induction artists as [|a artists IH]; [reflexivity|].
  destruct artists as [|b artists]; [reflexivity|].
  change (String.concat ", " (a :: b :: artists))
    with (a ++ ", " ++ String.concat ", " (b :: artists)).
  rewrite !escape_chars_app, IH. reflexivity.
Qed.

Lemma html_escape_join artists :
  html_escape (join ", " artists) = join ", " (map html_escape artists).
Proof.
  rewrite html_escape_one_pass, escape_chars_join. f_equal.
  apply map_ext. intros a. symmetry. apply html_escape_one_pass.
Qed.

(** ** More on the formatter *)

Section FormatterMore.
Context {ops : StrOps}.

Lemma format_field_shape self value format_spec out :
  Formatter.format_field self value format_spec = Ok out ->
  exists v, out = if Formatter._markup_escape self then html_escape v else v.
Proof.
  unfold Formatter.format_field. destruct format_spec as [|c spec].
  - intros [= <-]. exists value. reflexivity.
  - destruct (Formatter._FORMAT_FUNCS !! String c spec) as [[f|name]|]; cbn.
    + intros [= <-]. eexists. reflexivity.
    + destruct (Formatter.getattr self _) as [f|e]; cbn; [|discriminate].
      intros [= <-]. eexists. reflexivity.
    + discriminate.
Qed.

(** X1.  With markup escaping on, whatever the value and the filter, the
    text [format_field] returns for a field holds no [<], no [>] and no
    quote. *)
Theorem escaped_field_has_no_markup
    (self : Formatter.t) (value format_spec out : string) :
  Formatter._markup_escape self = true ->
  Formatter.format_field self value format_spec = Ok out ->
  occurs "<" out = false /\ occurs ">" out = false /\
  occurs "034" out = false /\ occurs "'" out = false.
Proof.
  intros Hesc Hfmt. destruct (format_field_shape _ _ _ _ Hfmt) as [v ->].
  rewrite Hesc. repeat split; apply html_escape_removes; (discriminate || reflexivity).
Qed.

Lemma format_field_escape_switch format_string icons value format_spec :
  Formatter.format_field (Formatter.mk format_string icons true) value format_spec
    = (out ← Formatter.format_field (Formatter.mk format_string icons false) value format_spec;
       Ok (html_escape out)).
Proof.
  unfold Formatter.format_field. destruct format_spec as [|c spec]; [reflexivity|].
  destruct (Formatter._FORMAT_FUNCS !! String c spec) as [[f|name]|]; cbn; try reflexivity.
  unfold Formatter.getattr. case_decide; reflexivity.
Qed.

(** X2.  Turning markup escaping on changes the text of a field exactly
    when the text, after its filter, holds one of the characters
    ampersand, [<], [>] and the two quotes. *)
Theorem escaping_changes_only_special_text
    (format_string : string) (icons : gmap string string)
    (value format_spec out : string) :
  Formatter.format_field (Formatter.mk format_string icons false) value format_spec = Ok out ->
  (Formatter.format_field (Formatter.mk format_string icons true) value format_spec = Ok out
   <-> clean out = true).
Proof.
  intros Hplain. rewrite format_field_escape_switch, Hplain. cbn.
  rewrite <- html_escape_fixes_clean. split; [intros [= H]; exact H|intros ->; reflexivity].
Qed.

(** X3.  Escaping the artists joined by comma and space, as [show_info]
    hands them to the formatter, is the same as escaping each name and
    joining then: with the default format and escaping on, the line is the
    escaped names, the dash, the escaped title. *)
Theorem escaped_artists_are_escaped_one_by_one
    (format_string : string) (status_icons : gmap string string)
    (icons : option (gmap string string)) (status : string)
    (artists : list string) (title : string) (album url : option string) :
  Formatter.format_field (Formatter.mk format_string status_icons true)
    (join ", " artists) EmptyString
    = Ok (join ", " (map html_escape artists)) /\
  render (Formatter.__init__ (format DEFAULT_CONFIG) icons true) status
         {| xesam_artist := Some artists; xesam_title := Some title;
            xesam_album := album; mpris_artUrl := url |}
    = Ok (join ", " (map html_escape artists) ++ " " ++ en_dash ++ " " ++ html_escape title).
Proof.
  split.
  - unfold Formatter.format_field. cbn. rewrite html_escape_join. reflexivity.
  - rewrite render_default_format, html_escape_join. reflexivity.
Qed.

Lemma kwargs_unknown status artist title field_name :
  field_name ∉ ["status"; "artist"; "title"] ->
  ({[ "status" := status; "artist" := artist; "title" := title ]} : gmap string string)
    !! field_name = None.
Proof.
  intros H. rewrite !lookup_insert_ne, lookup_singleton_ne; [reflexivity|..];
    intros <-; apply H; set_solver.
Qed.

Lemma vformat_unknown_field self kwargs items literal_text field_name format_spec :
  kwargs !! field_name = None ->
  forallb covered_item items = true ->
  In (PItem literal_text (Some (field_name, format_spec))) items ->
  exists e, Formatter.vformat self items kwargs = Raise e /\ e <> Unsupported.
Proof.
  intros Hnone. induction items as [|item items IH]; [intros _ []|].
  cbn [forallb]. intros Hcov Hin. apply andb_true_iff in Hcov as [Hitem Hcov].
  destruct item as [lit [[name spec]|]|e0].
  - cbn [Formatter.vformat]. cbn in Hitem.
    destruct (get_field name kwargs) as [obj|e] eqn:Hget; cbn.
    2:{ exists e. split; [reflexivity|]. eapply get_field_raises; eassumption. }
    destruct Hin as [[= -> -> ->]|Hin].
    { unfold get_field in Hget. rewrite Hitem, Hnone in Hget. discriminate Hget. }
    destruct (Formatter.format_field self obj spec) as [text|e] eqn:Hfmt; cbn.
    2:{ exists e. split; [reflexivity|]. eapply format_field_raises; eassumption. }
    destruct (IH Hcov Hin) as (e & -> & He). exists e. split; [reflexivity|exact He].
  - cbn [Formatter.vformat]. destruct Hin as [[=]|Hin].
    destruct (IH Hcov Hin) as (e & -> & He). exists e. split; [reflexivity|exact He].
  - cbn [Formatter.vformat]. exists e0. split; [reflexivity|].
    cbn in Hitem. apply negb_true_iff, bool_decide_eq_false in Hitem. exact Hitem.
Qed.

(** X4.  A template that names a field other than [status], [artist] and
    [title] is never rendered: for every status and every metadata
    [show_info] gets no line but an exception, a [KeyError] on that name
    when the field is the first thing the template holds. *)
Theorem unknown_field_fails_at_render
    (self : Formatter.t) (status : string) (metadata : metadata)
    (literal_text field_name format_spec : string) :
  field_name ∉ ["status"; "artist"; "title"] ->
  covered (Formatter._format_string self) = true ->
  In (PItem literal_text (Some (field_name, format_spec)))
     (parse (Formatter._format_string self)) ->
  (exists e, render self status metadata = Raise e /\ e <> Unsupported) /\
  (forall artists title rest,
      xesam_artist metadata = Some artists -> xesam_title metadata = Some title ->
      parse (Formatter._format_string self)
        = PItem literal_text (Some (field_name, format_spec)) :: rest ->
      render self status metadata = Raise (KeyError field_name)).
Proof.
  intros Hname Hcov Hin. split.
  - unfold render.
    destruct (xesam_artist metadata) as [artists|]; cbn;
      [|eexists; split; [reflexivity|discriminate]].
    destruct (xesam_title metadata) as [title|]; cbn;
      [|eexists; split; [reflexivity|discriminate]].
    unfold Formatter.__call__, Formatter.format.
    eapply vformat_unknown_field; [apply kwargs_unknown, Hname|exact Hcov|exact Hin].
  - intros artists title rest Ha Ht Hparse. unfold render. rewrite Ha, Ht. cbn.
    unfold Formatter.__call__, Formatter.format. rewrite Hparse. cbn [Formatter.vformat].
    unfold covered in Hcov. rewrite Hparse in Hcov. cbn in Hcov.
    apply andb_true_iff in Hcov as [Hplain _].
    unfold get_field. rewrite Hplain, (kwargs_unknown _ _ _ _ Hname). reflexivity.
Qed.

End FormatterMore.

(** ** More on the handlers *)

Section HandlersMore.
Context {ops : StrOps}.

(** X5.  When the metadata has no [xesam:artist], or no [xesam:title],
    [show_info] raises [KeyError] on the first of the two that is missing,
    before anything is printed or stored: the blocklet, the view and the
    output stay as they were. *)
Theorem show_info_needs_artist_and_title
    (st : State) (status : string) (metadata : metadata) (only_if_changed : bool) :
  xesam_artist metadata = None \/ xesam_title metadata = None ->
  let key := match xesam_artist metadata with
             | None => "xesam:artist"
             | Some _ => "xesam:title"
             end in
  show_info status metadata only_if_changed st = (Raised (KeyError key), st) /\
  on_properties_changed PROPERTIES_INTERFACE
    {| changed_PlaybackStatus := Some status; changed_Metadata := Some metadata |} [] st
    = (Raised (KeyError key), st).
Proof.
  intros Hmissing key.
  assert (Hshow : forall oic, show_info status metadata oic st = (Raised (KeyError key), st)).
  { intros oic. subst key. unfold show_info, bind, get_self, lift, render.
    destruct (xesam_artist metadata) as [artists|]; cbn; [|reflexivity].
    destruct Hmissing as [[=]| ->]. reflexivity. }
  split; [apply Hshow|].
  unfold on_properties_changed, bind, lift, get_self. cbn. apply Hshow.
Qed.

(** With no view open, [show_info] returns; it prints and records the
    line, or leaves everything as it was. *)
Lemma show_info_no_view status metadata only_if_changed st info :
  gui (self st) = None ->
  render (_formatter (self st)) status metadata = Ok info ->
  show_info status metadata only_if_changed st
    = (Return tt,
       if negb only_if_changed || bool_decide (_prev_info (self st) ≠ Some info)
       then mkState (set_prev_info (Some info) (self st))
                    (set_stdout (stdout (world st) ++ [info]) (world st))
       else st).
Proof.
  intros Hgui Hrender. destruct st as [b w].
  unfold show_info, bind, get_self, lift, print_line, modify_self, modify_world, ret.
  cbn. cbn in Hgui, Hrender. rewrite Hrender.
  destruct b as [fmt mb dd prev th g os lp bs sp]. cbn in Hgui. subst g.
  cbn [self world _prev_info gui old_status].
  destruct (decide (os ≠ status)); cbn;
    destruct (negb only_if_changed || bool_decide (prev ≠ Some info));
    reflexivity.
Qed.

(** X6.  A change of status that renders to the line already shown, with
    a view open: under [only_if_changed] nothing is printed and the player
    is not asked anything, yet the button of the view takes the glyph of
    the new status and [old_status] follows; the rest of the view, its
    picture included, is as before. *)
Theorem status_change_updates_button_only
    (st : State) (g : GUIManager.t) (status : string) (metadata : metadata)
    (info : string) :
  gui (self st) = Some g ->
  old_status (self st) <> status ->
  render (_formatter (self st)) status metadata = Ok info ->
  _prev_info (self st) = Some info ->
  show_info status metadata true st
    = (Return tt,
       mkState
         (set_old_status status
            (set_gui (Some (GUIManager.set_status_str
                              (if decide (status = "Playing")
                               then GUIManager.glyph_pause else GUIManager.glyph_play) g))
               (self st)))
         (world st)).
Proof.
  intros Hgui Hold Hrender Hprev. destruct st as [b w].
  unfold show_info, bind, get_self, lift, call_gui, modify_self, ret.
  cbn. cbn in Hgui, Hold, Hrender, Hprev. rewrite Hrender.
  destruct b as [fmt mb dd prev th g0 os lp bs sp]. cbn in Hgui, Hold, Hprev.
  subst g0 prev. cbn [self world _prev_info gui old_status].
  destruct (decide (os ≠ status)) as [_|Hn]; [|contradiction].
  unfold GUIManager.update_play_button_text, GUIManager.assign.
  destruct (decide (status = "Playing")); cbn;
    rewrite (bool_decide_eq_false_2 (Some info ≠ Some info))
      by (intros Hn; apply Hn; reflexivity);
    reflexivity.
Qed.

End HandlersMore.

(** ** De-duplication of any sequence *)

Lemma compress_head prev lines line rest :
  compress prev lines = line :: rest -> prev <> Some line.
Proof.
  induction lines as [|l lines IH]; cbn [compress]; [discriminate|].
  case_bool_decide as Hp; [exact IH|].
  intros [= <- _]. exact Hp.
Qed.

Lemma compress_adjacent lines : forall prev i a b,
  compress prev lines !! i = Some a ->
  compress prev lines !! S i = Some b ->
  a <> b.
Proof.
  induction lines as [|l lines IH]; intros prev i a b; cbn [compress]; [discriminate|].
  case_bool_decide as Hp; [apply IH|].
  destruct i as [|i]; cbn.
  - intros [= <-] Hb. destruct (compress (Some l) lines) as [|b' rest] eqn:E; [discriminate|].
    cbn in Hb. injection Hb as ->. apply compress_head in E. congruence.
  - apply IH.
Qed.

Lemma last_cons_default {A} (l : list A) (x d : A) : List.last (x :: l) d = List.last l x.
Proof.
  revert x d. induction l as [|y l IH]; intros x d; [reflexivity|].
  change (List.last (x :: y :: l) d) with (List.last (y :: l) d).
  rewrite !IH. reflexivity.
Qed.

Section Sequences.
Context {ops : StrOps}.

(** X9.  [on_properties_changed] called on any sequence of payloads that
    render: with [_dedupe] the lines printed are the rendered lines
    without those that repeat the line before them, so that no line is
    printed twice in a row and the first differs from the line retained;
    without [_dedupe] every line is printed.  Either way [_prev_info] ends
    as the last line rendered. *)
Theorem dedupe_drops_exactly_the_repeats
    (iface : string) (inv : list string) (payloads : list (string * metadata))
    (lines : list string) (st : State) :
  Forall2 (fun payload line =>
             render (_formatter (self st)) (fst payload) (snd payload) = Ok line)
          payloads lines ->
  let st' := feed iface inv payloads st in
  let printed := if _dedupe (self st) then compress (_prev_info (self st)) lines
                 else lines in
  stdout (world st') = (stdout (world st) ++ printed)%list /\
  _prev_info (self st') = List.last (map Some lines) (_prev_info (self st)) /\
  (_dedupe (self st) = true ->
   (forall line rest, printed = line :: rest -> _prev_info (self st) <> Some line) /\
   (forall i a b, printed !! i = Some a -> printed !! S i = Some b -> a <> b)).
Proof.
  intros Hall st' printed. subst st' printed. split; [|split].
  3:{ intros ->. split; [apply compress_head|apply compress_adjacent]. }
  all: revert st lines Hall; induction payloads as [|[status metadata] payloads IH];
    intros st lines Hall; inversion Hall as [|? line ? lines' Hr Hrest]; subst.
  - destruct (_dedupe (self st)); cbn; rewrite app_nil_r; reflexivity.
  - cbn [feed fold_left fst snd]. cbn [fst snd] in Hr.
    destruct (on_properties_changed_exec iface status metadata inv st line Hr)
      as (Ho & Hp & Hf & Hd).
    set (st1 := exec _ st) in *.
    assert (Hrest1 : Forall2 (fun payload line =>
               render (_formatter (self st1)) (fst payload) (snd payload) = Ok line)
             payloads lines') by (rewrite Hf; exact Hrest).
    specialize (IH st1 lines' Hrest1). unfold feed in IH. rewrite IH, Ho, Hd, Hp.
    rewrite <- app_assoc. f_equal.
    destruct (_dedupe (self st)); cbn [negb orb compress].
    + case_bool_decide as Hne; case_bool_decide as Heq; try congruence; reflexivity.
    + reflexivity.
  - reflexivity.
  - cbn [feed fold_left fst snd]. cbn [fst snd] in Hr.
    destruct (on_properties_changed_exec iface status metadata inv st line Hr)
      as (Ho & Hp & Hf & Hd).
    set (st1 := exec _ st) in *.
    assert (Hrest1 : Forall2 (fun payload line =>
               render (_formatter (self st1)) (fst payload) (snd payload) = Ok line)
             payloads lines') by (rewrite Hf; exact Hrest).
    specialize (IH st1 lines' Hrest1). unfold feed in IH. rewrite IH, Hp.
    cbn [map]. rewrite last_cons_default.
    destruct (negb (_dedupe (self st)) || bool_decide (_prev_info (self st) ≠ Some line))
      eqn:Hemit; [reflexivity|].
    apply orb_false_iff in Hemit as [_ Hemit]. apply bool_decide_eq_false in Hemit.
    destruct (decide (_prev_info (self st) = Some line)) as [->|Hn]; [reflexivity|].
    contradiction.
Qed.

End Sequences.

(** ** Invariants of the run *)

Section Invariants.
Context {ops : StrOps}.

(** A property [Q] of what the handlers can change. *)
Variable Q : option string * option GUIManager.t * string * list string -> Prop.

Lemma keeps_bind {A B} (m : M A) (f : A -> M B) :
  keeps (fun st => Q (view st)) m ->
  (forall a, keeps (fun st => Q (view st)) (f a)) ->
  keeps (fun st => Q (view st)) (bind m f).
Proof.
  intros Hm Hf st o st' HP. unfold bind.
  destruct (m st) as [[a|e| |] st1] eqn:E; intros H;
    try (injection H as <- <-; eapply Hm; eassumption).
  eapply Hf; [eapply Hm; eassumption|exact H].
Qed.

Lemma keeps_same_view {A} (m : M A) :
  (forall st o st', m st = (o, st') -> view st' = view st) ->
  keeps (fun st => Q (view st)) m.
Proof. intros Hm st o st' HP H. rewrite (Hm _ _ _ H). exact HP. Qed.

Hypothesis show_info_keeps : forall status metadata only_if_changed,
  keeps (fun st => Q (view st)) (show_info status metadata only_if_changed).
Hypothesis owner_changed_keeps : forall name old_owner new_owner,
  keeps (fun st => Q (view st)) (on_name_owner_changed name old_owner new_owner).

Lemma handler_of_keeps ev : keeps (fun st => Q (view st)) (handler_of ev).
Proof.
  destruct ev as [iface payload inv|name old_owner new_owner|]; cbn [handler_of].
  - unfold on_properties_changed.
    apply keeps_bind; [apply keeps_same_view; unfold lift; intros st o st';
                       destruct (getitem _ _); intros [= <- <-]; reflexivity|].
    intros status.
    apply keeps_bind; [apply keeps_same_view; unfold lift; intros st o st';
                       destruct (getitem _ _); intros [= <- <-]; reflexivity|].
    intros metadata.
    apply keeps_bind; [apply keeps_same_view; intros st o st' [= <- <-]; reflexivity|].
    intros b. apply show_info_keeps.
  - apply owner_changed_keeps.
  - apply keeps_same_view. intros st o st' [= <- <-]. reflexivity.
Qed.

Lemma deliver_keeps handler :
  keeps (fun st => Q (view st)) handler -> keeps (fun st => Q (view st)) (deliver handler).
Proof.
  intros Hh st o st' HP. unfold deliver.
  destruct (handler st) as [[a|e| |] st1] eqn:E; intros [= <- <-];
    exact (Hh _ _ _ HP E).
Qed.

Lemma deliver_to_keeps n handler :
  keeps (fun st => Q (view st)) handler ->
  keeps (fun st => Q (view st)) (deliver_to n handler).
Proof.
  intros Hh. induction n as [|n IH]; cbn [deliver_to].
  - apply keeps_same_view. intros st o st' [= <- <-]. reflexivity.
  - apply keeps_bind; [apply deliver_keeps, Hh|intros _; exact IH].
Qed.

Lemma dispatch_keeps events : keeps (fun st => Q (view st)) (dispatch events).
Proof.
  induction events as [|ev events IH]; cbn [dispatch].
  - apply keeps_same_view. intros st o st' [= <- <-]. reflexivity.
  - assert (Hstep : keeps (fun st => Q (view st))
              (modify_world (set_pending events);;;
               let* w := get_world in
               deliver_to (receivers w) (handler_of ev);;; dispatch events)).
    { apply keeps_bind; [apply keeps_same_view; intros st o st' [= <- <-]; reflexivity|].
      intros _. apply keeps_bind;
        [apply keeps_same_view; intros st o st' [= <- <-]; reflexivity|].
      intros w. apply keeps_bind; [apply deliver_to_keeps, handler_of_keeps|].
      intros _. exact IH. }
    destruct ev; try exact Hstep.
    apply keeps_same_view. intros st o st' [= <- <-]. reflexivity.
Qed.

Lemma _run_keeps : keeps (fun st => Q (view st)) _run.
Proof.
  unfold _run.
  apply keeps_bind; [apply keeps_same_view; intros st o st' [= <- <-]; reflexivity|].
  intros w. apply keeps_bind.
  { apply keeps_same_view. destruct (session_bus w); intros st o st' [= <- <-]; reflexivity. }
  intros _. apply keeps_bind;
    [apply keeps_same_view; intros st o st' [= <- <-]; reflexivity|].
  intros _. apply keeps_bind;
    [apply keeps_same_view; intros st o st' [= <- <-]; reflexivity|].
  intros _. apply keeps_bind.
  { unfold show_initial_info.
    apply keeps_bind; [apply keeps_same_view; intros st o st' [= <- <-]; reflexivity|].
    intros status.
    apply keeps_bind; [apply keeps_same_view; intros st o st' [= <- <-]; reflexivity|].
    intros metadata. apply show_info_keeps. }
  intros _. unfold loop_run.
  apply keeps_bind; [apply keeps_same_view; intros st o st' [= <- <-]; reflexivity|].
  intros w'. apply dispatch_keeps.
Qed.

Lemma attempt_keeps forever : keeps (fun st => Q (view st)) (attempt forever).
Proof.
  intros st o st' HP. unfold attempt.
  destruct (_run st) as [o1 st1] eqn:E. pose proof (_run_keeps _ _ _ HP E) as HP1.
  destruct o1 as [[]|e| |]; [| |intros [= <- <-]; exact HP1..].
  - destruct forever; intros [= <- <-]; exact HP1.
  - destruct e; destruct forever; intros [= <- <-]; exact HP1.
Qed.

Lemma while_true_keeps forever fuel : keeps (fun st => Q (view st)) (while_true forever fuel).
Proof.
  induction fuel as [|fuel IH]; cbn [while_true].
  - apply keeps_same_view. intros st o st' [= <- <-]. reflexivity.
  - apply keeps_bind; [apply attempt_keeps|].
    intros [|]; [exact IH|].
    apply keeps_same_view. intros st o st' [= <- <-]. reflexivity.
Qed.

Lemma run_keeps init_loop_arg forever fuel :
  keeps (fun st => Q (view st)) (run init_loop_arg forever fuel).
Proof.
  unfold run. apply keeps_bind.
  { destruct init_loop_arg.
    - apply keeps_same_view. intros st o st' [= <- <-]. reflexivity.
    - apply keeps_bind; [apply keeps_same_view; intros st o st' [= <- <-]; reflexivity|].
      intros b. apply keeps_same_view.
      destruct (loop b); intros st o st' [= <- <-]; reflexivity. }
  intros _. apply keeps_bind.
  { apply keeps_bind; [apply keeps_same_view; intros st o st' [= <- <-]; reflexivity|].
    intros b. apply keeps_same_view.
    destruct (_handle_input_thread b); intros st o st' [= <- <-]; reflexivity. }
  intros _. apply keeps_bind; [apply while_true_keeps|].
  intros _. apply keeps_same_view. intros st o st' [= <- <-]. reflexivity.
Qed.

End Invariants.

Section InvariantsOfRun.
Context {ops : StrOps}.

Lemma show_info_keeps_prev_is_last status metadata only_if_changed :
  keeps (fun st => prev_is_last (view st)) (show_info status metadata only_if_changed).
Proof.
  intros st o st' HP H.
  destruct (render (_formatter (self st)) status metadata) as [info|e] eqn:Hr.
  - apply (show_info_effect _ _ _ _ _ _ _ Hr) in H.
    apply show_info_to_fields in H as (Ho & Hp & _).
    unfold view, prev_is_last in *. rewrite Hp, Ho.
    destruct (negb only_if_changed || bool_decide (_prev_info (self st) ≠ Some info)).
    + eexists. reflexivity.
    + rewrite app_nil_r. exact HP.
  - unfold show_info, bind, get_self, lift in H. rewrite Hr in H.
    injection H as <- <-. exact HP.
Qed.

Lemma owner_changed_keeps_prev_is_last name old_owner new_owner :
  keeps (fun st => prev_is_last (view st)) (on_name_owner_changed name old_owner new_owner).
Proof.
  intros st o st' HP. unfold on_name_owner_changed.
  destruct (_ && _); intros [= <- <-]; [exact I|exact HP].
Qed.

(** X8.  When [_prev_info] holds a line, it is the line printed last.
    This is so for a new blocklet, and every handler and the whole of
    [run] keep it so, whatever the signals and however the call ends. *)
Theorem retained_line_is_the_last_printed
    (st : State) (ev : event) (init_loop_arg forever : bool) (fuel : nat)
    (o1 o2 : outcome unit) (st1 st2 : State) :
  prev_is_last (view st) ->
  handler_of ev st = (o1, st1) ->
  run init_loop_arg forever fuel st = (o2, st2) ->
  prev_is_last (view st1) /\ prev_is_last (view st2) /\
  forall config w, prev_is_last (view (mkState (__init__ config) w)).
Proof.
  intros HP H1 H2. split; [|split].
  - exact (handler_of_keeps prev_is_last show_info_keeps_prev_is_last
             owner_changed_keeps_prev_is_last ev _ _ _ HP H1).
  - exact (run_keeps prev_is_last show_info_keeps_prev_is_last
             owner_changed_keeps_prev_is_last _ _ _ _ _ _ HP H2).
  - intros config w. exact I.
Qed.




End InvariantsOfRun.

(** ** How [run] ends *)

Lemma same_session_refl w : same_session w w.
Proof. repeat split. Qed.

Lemma same_session_trans w1 w2 w3 :
  same_session w1 w2 -> same_session w2 w3 -> same_session w1 w3.
Proof.
  intros (A1 & A2 & A3 & A4 & A5 & A6) (B1 & B2 & B3 & B4 & B5 & B6).
  repeat split; congruence.
Qed.


Section EndOfRun.
Context {ops : StrOps}.

Lemma comes_back_bind {A B} (m : M A) (f : A -> M B) :
  comes_back m -> (forall a, comes_back (f a)) -> comes_back (bind m f).
Proof.
  intros Hm Hf st o st'. unfold bind.
  destruct (m st) as [[a|e| |] st1] eqn:E; intros H;
    try (injection H as <- <-; exact (Hm _ _ _ E)).
  eapply Hf, H.
Qed.

Lemma comes_back_lift {A} (r : result A) : comes_back (lift r).
Proof. intros st o st'. unfold lift. destruct r; intros [= <- <-]; exact I. Qed.

Lemma comes_back_call_gui method : comes_back (call_gui method).
Proof.
  intros st o st'. unfold call_gui. destruct (gui (self st)) as [g|].
  - destruct (method _ _ g) as [[a|e] g']; intros [= <- <-]; exact I.
  - intros [= <- <-]. exact I.
Qed.

Lemma show_info_comes_back status metadata only_if_changed :
  comes_back (show_info status metadata only_if_changed).
Proof.
  unfold show_info.
  apply comes_back_bind; [intros st o st' [= <- <-]; exact I|]. intros b.
  apply comes_back_bind; [apply comes_back_lift|]. intros info.
  apply comes_back_bind.
  { case_decide; [|intros st o st' [= <- <-]; exact I].
    destruct (gui b); [|intros st o st' [= <- <-]; exact I].
    apply comes_back_bind; [apply comes_back_call_gui|].
    intros _ st o st' [= <- <-]. exact I. }
  intros _. apply comes_back_bind; [intros st o st' [= <- <-]; exact I|]. intros b'.
  destruct (negb only_if_changed || _); [|intros st o st' [= <- <-]; exact I].
  apply comes_back_bind; [intros st o st' [= <- <-]; exact I|]. intros _.
  apply comes_back_bind; [intros st o st' [= <- <-]; exact I|]. intros _.
  apply comes_back_bind; [intros st o st' [= <- <-]; exact I|]. intros b''.
  destruct (gui b''); [apply comes_back_call_gui|intros st o st' [= <- <-]; exact I].
Qed.

Lemma handler_of_comes_back ev : comes_back (handler_of ev).
Proof.
  destruct ev as [iface payload inv|name old_owner new_owner|]; cbn [handler_of].
  - unfold on_properties_changed.
    apply comes_back_bind; [apply comes_back_lift|]. intros status.
    apply comes_back_bind; [apply comes_back_lift|]. intros metadata.
    apply comes_back_bind; [intros st o st' [= <- <-]; exact I|]. intros b.
    apply show_info_comes_back.
  - unfold on_name_owner_changed. destruct (_ && _); intros st o st' [= <- <-]; exact I.
  - intros st o st' [= <- <-]. exact I.
Qed.

Lemma handler_of_same_session ev st o st' :
  handler_of ev st = (o, st') -> same_session (world st) (world st').
Proof.
  assert (Hshow : forall status metadata oic st o st',
             show_info status metadata oic st = (o, st') ->
             same_session (world st) (world st')).
  { clear. intros status metadata oic st o st' H.
    destruct (render (_formatter (self st)) status metadata) as [info|e] eqn:Hr.
    - apply (show_info_effect _ _ _ _ _ _ _ Hr) in H. destruct H as [-> _].
      repeat split.
    - unfold show_info, bind, get_self, lift in H. rewrite Hr in H.
      injection H as <- <-. apply same_session_refl. }
  destruct ev as [iface payload inv|name old_owner new_owner|]; cbn [handler_of].
  - unfold on_properties_changed, bind, lift, get_self.
    destruct payload as [[status|] [metadata|]]; cbn;
      try (intros [= <- <-]; apply same_session_refl).
    apply Hshow.
  - unfold on_name_owner_changed.
    destruct (_ && _); intros [= <- <-]; [repeat split|apply same_session_refl].
  - intros [= <- <-]. apply same_session_refl.
Qed.

(** The dispatcher hands a signal to every receiver and comes back. *)
Lemma deliver_to_returns n ev st :
  exists st', deliver_to n (handler_of ev) st = (Return tt, st') /\
              same_session (world st) (world st') /\ extends st st'.
Proof.
  revert st. induction n as [|n IH]; intros st; cbn [deliver_to].
  - exists st. split; [reflexivity|]. split; [apply same_session_refl|apply extends_refl].
  - unfold bind, deliver at 1.
    destruct (handler_of ev st) as [o st1] eqn:E.
    pose proof (handler_of_comes_back _ _ _ _ E) as Hback.
    pose proof (handler_of_same_session _ _ _ _ E) as Hsame.
    pose proof (handler_of_extends _ _ _ _ E) as Hext.
    destruct o as [[]|e| |]; try contradiction.
    + destruct (IH st1) as (st' & -> & Hs & He). exists st'.
      split; [reflexivity|]. split; [eapply same_session_trans|eapply extends_trans]; eassumption.
    + set (st1' := mkState _ _).
      destruct (IH st1') as (st' & -> & Hs & He). exists st'.
      split; [reflexivity|]. split.
      * eapply same_session_trans; [exact Hsame|]. exact Hs.
      * eapply extends_trans; [exact Hext|]. exact He.
Qed.

Lemma dispatch_signal ev events st :
  ev <> Interrupt ->
  dispatch (ev :: events) st
    = (let* w := get_world in
       deliver_to (receivers w) (handler_of ev);;; dispatch events)
        (mkState (self st) (set_pending events (world st))).
Proof. intros Hev. destruct ev; [reflexivity|reflexivity|contradiction]. Qed.

Lemma dispatch_until_interrupt signals : forall rest st,
  no_interrupt signals = true ->
  exists st', dispatch (signals ++ Interrupt :: rest) st = (Raised KeyboardInterrupt, st') /\
              pending (world st') = rest /\ slept (world st') = slept (world st) /\
              extends st st'.
Proof.
  induction signals as [|ev signals IH]; intros rest st Hno.
  - eexists. split; [reflexivity|]. cbn. split; [reflexivity|]. split; [reflexivity|].
    exists []. cbn. rewrite app_nil_r. reflexivity.
  - assert (Hev : ev <> Interrupt) by (intros ->; discriminate Hno).
    assert (Hno' : no_interrupt signals = true) by (destruct ev; [exact Hno|exact Hno|contradiction]).
    cbn [app]. rewrite (dispatch_signal _ _ _ Hev). unfold bind at 1, get_world.
    unfold bind at 1. set (st0 := mkState _ _).
    destruct (deliver_to_returns (receivers (world st0)) ev st0)
      as (st1 & -> & (_ & _ & _ & _ & _ & Hsl) & Hext).
    destruct (IH rest st1 Hno') as (st' & -> & Hp & Hsl' & Hext').
    exists st'. split; [reflexivity|]. split; [exact Hp|]. split.
    + rewrite Hsl', Hsl. reflexivity.
    + eapply extends_trans; [|exact Hext']. eapply extends_trans; [|exact Hext].
      exists []. cbn. rewrite app_nil_r. reflexivity.
Qed.



(** What [run] does before it enters its loop. *)
Lemma run_starts init_loop_arg forever fuel b w :
  init_loop_arg = true \/ loop b <> None ->
  _handle_input_thread b = false ->
  exists b0,
    run init_loop_arg forever fuel (mkState b w)
      = (while_true forever fuel;;;
         modify_self (set_loop (Some {| quit_called := true |}))) (mkState b0 w) /\
    _formatter b0 = _formatter b /\ gui b0 = gui b /\
    loop b0 = (if init_loop_arg then Some {| quit_called := false |} else loop b).
Proof.
  intros Hloop Hthread. unfold run.
  destruct b as [fmt mb dd prev th g os lp bs sp]. cbn in Hloop, Hthread. subst th.
  destruct init_loop_arg.
  - eexists. split; [reflexivity|]. cbn. auto.
  - destruct Hloop as [[=]|Hlp]. destruct lp as [l|]; [|contradiction].
    eexists. split; [reflexivity|]. cbn. auto.
Qed.

(** X11.  Without [init_loop], and with no loop set before, [run] raises
    [RuntimeError] at once: the input thread is not started, no connection
    is tried and nothing else has changed. *)
Theorem run_needs_a_loop (st : State) (forever : bool) (fuel : nat) :
  loop (self st) = None ->
  run false forever fuel st
    = (Raised (RuntimeError "Loop is not initialized; call init_loop() first."), st).
Proof.
  intros Hloop. unfold run, bind, get_self. cbn. rewrite Hloop. reflexivity.
Qed.

(** One turn of the loop in continuous mode when the connection fails. *)
Lemma attempt_forever_failing st :
  session_bus (world st) = false \/ player (world st) = None ->
  exists st',
    attempt true st = (Return Continue, st') /\
    slept (world st') = slept (world st) + 1 /\
    stdout (world st') = stdout (world st) /\
    session_bus (world st') = session_bus (world st) /\
    player (world st') = player (world st) /\
    receivers (world st')
      = receivers (world st) + (if session_bus (world st) then 1 else 0).
Proof.
  intros Hfail. destruct st as [b w]. cbn in Hfail.
  unfold attempt, _run, bind at 1, get_world. cbn.
  destruct (session_bus w) eqn:Hbus.
  - destruct Hfail as [[=]|Hpl].
    unfold bind, modify_self, connect_to_dbus_signals, modify_world, show_initial_info,
      get_property, read_property, bind, raise. cbn. rewrite Hpl. cbn.
    eexists. split; [reflexivity|]. cbn. rewrite Hbus. repeat split; [exact Hpl|lia].
  - unfold bind, raise. cbn. eexists. split; [reflexivity|]. cbn. rewrite Hbus.
    repeat split. lia.
Qed.

Lemma while_true_forever_failing fuel : forall st,
  session_bus (world st) = false \/ player (world st) = None ->
  exists st',
    while_true true fuel st = (OutOfFuel, st') /\
    slept (world st') = slept (world st) + fuel /\
    stdout (world st') = stdout (world st) /\
    receivers (world st')
      = receivers (world st) + (if session_bus (world st) then fuel else 0).
Proof.
  induction fuel as [|fuel IH]; intros st Hfail; cbn [while_true].
  - exists st. split; [reflexivity|]. repeat split; [lia|destruct (session_bus _); lia].
  - destruct (attempt_forever_failing st Hfail) as (st1 & Hatt & Hsl & Hout & Hbus & Hpl & Hrc).
    unfold bind. rewrite Hatt.
    assert (Hfail1 : session_bus (world st1) = false \/ player (world st1) = None)
      by (rewrite Hbus, Hpl; exact Hfail).
    destruct (IH st1 Hfail1) as (st' & -> & Hsl' & Hout' & Hrc').
    exists st'. split; [reflexivity|]. rewrite Hsl', Hout', Hrc', Hsl, Hout, Hrc, Hbus.
    repeat split; [lia|destruct (session_bus _); lia].
Qed.

(** X12.  In continuous mode a connection that keeps failing is tried
    again for ever: however many turns the loop is given, [run] is still
    in it, one second of sleep per turn; nothing has been printed, and when
    the session bus is there but the player is not, every turn has added
    one more pair of signal receivers. *)
Theorem continuous_run_retries_for_ever
    (st : State) (init_loop_arg : bool) (fuel : nat) :
  init_loop_arg = true \/ loop (self st) <> None ->
  _handle_input_thread (self st) = false ->
  session_bus (world st) = false \/ player (world st) = None ->
  exists st',
    run init_loop_arg true fuel st = (OutOfFuel, st') /\
    slept (world st') = slept (world st) + fuel /\
    stdout (world st') = stdout (world st) /\
    receivers (world st')
      = receivers (world st) + (if session_bus (world st) then fuel else 0).
Proof.
  intros Hloop Hthread Hfail. destruct st as [b w]. cbn in Hloop, Hthread, Hfail.
  destruct (run_starts init_loop_arg true fuel b w Hloop Hthread) as (b0 & -> & _).
  destruct (while_true_forever_failing fuel (mkState b0 w) Hfail)
    as (st' & Hw & Hsl & Hout & Hrc).
  unfold bind. rewrite Hw. exists st'. auto.
Qed.



(** X14.  An interrupt ends [run] in the same way in both modes.  With
    the player there, no view open and an interrupt in the script, [run]
    prints the initial line, handles the signals before the interrupt,
    then leaves its loop, calls [loop.quit()] and returns; the signals
    after the interrupt stay pending and no second of sleep was spent. *)
Theorem interrupt_ends_run_in_both_modes
    (st : State) (pl : Player) (line : string) (signals rest : list event)
    (init_loop_arg forever : bool) (fuel : nat) :
  init_loop_arg = true \/ loop (self st) <> None ->
  _handle_input_thread (self st) = false ->
  session_bus (world st) = true ->
  player (world st) = Some pl ->
  render (_formatter (self st)) (player_PlaybackStatus pl) (player_Metadata pl) = Ok line ->
  gui (self st) = None ->
  pending (world st) = (signals ++ Interrupt :: rest)%list ->
  no_interrupt signals = true ->
  exists st',
    run init_loop_arg forever (S fuel) st = (Return tt, st') /\
    loop (self st') = Some {| quit_called := true |} /\
    pending (world st') = rest /\
    slept (world st') = slept (world st) /\
    exists lines, stdout (world st') = (stdout (world st) ++ line :: lines)%list.
Proof.
  intros Hloop Hthread Hbus Hpl Hr Hgui Hpe Hno. destruct st as [b w].
  cbn in Hloop, Hthread, Hbus, Hpl, Hr, Hgui, Hpe.
  destruct (run_starts init_loop_arg forever (S fuel) b w Hloop Hthread)
    as (b0 & -> & Hf0 & Hg0 & _).
  assert (Hrun : exists st1,
            _run (mkState b0 w) = (Raised KeyboardInterrupt, st1) /\
            pending (world st1) = rest /\ slept (world st1) = slept w /\
            exists lines, stdout (world st1) = (stdout w ++ line :: lines)%list).
  { rewrite (run_reaches_initial_info (mkState b0 w) Hbus).
    set (st0 := mkState _ _). unfold bind.
    rewrite (show_initial_info_connected st0 pl eq_refl Hpl).
    assert (Hr0 : render (_formatter (self st0)) (player_PlaybackStatus pl)
                    (player_Metadata pl) = Ok line) by (cbn; rewrite Hf0; exact Hr).
    assert (Hg0' : gui (self st0) = None) by (cbn; rewrite Hg0; exact Hgui).
    rewrite (show_info_no_view _ _ false st0 line Hg0' Hr0). cbn [negb orb].
    unfold loop_run, bind, get_world. cbn [world pending set_stdout st0 set_receivers].
    rewrite Hpe.
    match goal with |- context [dispatch _ ?s] => set (st0' := s) end.
    destruct (dispatch_until_interrupt signals rest st0' Hno)
      as (st1 & -> & Hp1 & Hs1 & [lines Hl1]).
    exists st1. split; [reflexivity|]. split; [exact Hp1|]. split; [exact Hs1|].
    exists lines. rewrite Hl1. cbn. rewrite <- app_assoc. reflexivity. }
  destruct Hrun as (st1 & Hrun & Hp1 & Hs1 & Hl1).
  assert (Hatt : attempt forever (mkState b0 w) = (Return Break, st1)).
  { unfold attempt. rewrite Hrun. destruct forever; reflexivity. }
  cbn [while_true]. unfold bind. rewrite Hatt.
  eexists. split; [reflexivity|]. cbn. auto.
Qed.

End EndOfRun.

(** ** The view *)

Lemma old_url_to_new_twice url : old_url_to_new (old_url_to_new url) = old_url_to_new url.
Proof.
  assert (Hseg : exists song_id, occurs "/" song_id = false /\
                   old_url_to_new url = "https://i.scdn.co/image" ++ String "/" song_id).
  { destruct (last_separator "/" url) as [H | (a & b & -> & H)].
    - exists url. split; [exact H|]. apply old_url_to_new_no_slash, H.
    - exists b. split; [exact H|]. apply old_url_to_new_after_slash, H. }
  destruct Hseg as (song_id & Hno & ->). apply old_url_to_new_after_slash, Hno.
Qed.

(** X15.  When the player gives all four entries of its metadata,
    [update_from_spotify_block] fills the view from them: the artists
    joined, the title, the album, the rewritten address of the picture,
    the glyph of the status and the window title.  A picture is loaded
    only if one was shown before, and it is loaded from the very address
    kept in [album_art], the second rewrite of [update_image] changing
    nothing; when the download fails, the old picture stays with the texts
    of the new track. *)
Theorem update_from_spotify_block_fills_the_view
    (urlopen : string -> result string) (spotify_block : spotify_block_ref)
    (status : string) (g : GUIManager.t)
    (artists : list string) (title album url : string) :
  block_get_property spotify_block _ Metadata
    = Ok {| xesam_artist := Some artists; xesam_title := Some title;
            xesam_album := Some album; mpris_artUrl := Some url |} ->
  let filled := fun image =>
    GUIManager.mk
      (if decide (status = "Playing") then GUIManager.glyph_pause else GUIManager.glyph_play)
      (join ", " artists) title album (old_url_to_new url)
      (join ", " artists ++ " - " ++ title) image in
  GUIManager.update_from_spotify_block urlopen spotify_block status g
    = match GUIManager.image g with
      | None => (Ok tt, filled None)
      | Some old =>
          match urlopen (old_url_to_new url) with
          | Ok picture => (Ok tt, filled (Some picture))
          | Raise e => (Raise e, filled (Some old))
          end
      end.
Proof.
  intros Hget filled. subst filled.
  unfold GUIManager.update_from_spotify_block, GUIManager.update_image,
    GUIManager.update_play_button_text, GUIManager.image_from_url,
    GUIManager.bind, GUIManager.lift, GUIManager.assign, GUIManager.read, GUIManager.pure.
  rewrite Hget. destruct g as [ss ar ti al aa rt [old|]];
    destruct (decide (status = "Playing")); cbn -[old_url_to_new join];
    try reflexivity;
    rewrite old_url_to_new_twice;
    destruct (urlopen (old_url_to_new url)); reflexivity.
Qed.

(** X16.  When the metadata has artists and a title but lacks the album
    or the address of the picture, [update_from_spotify_block] raises
    [KeyError] on the first of the two that is missing and leaves the
    view half updated: artists and title, and the album when it was
    there, are those of the new track, while the address of the picture,
    the glyph, the window title and the picture are the old ones. *)
Theorem update_from_spotify_block_stops_half_way
    (urlopen : string -> result string) (spotify_block : spotify_block_ref)
    (status : string) (g : GUIManager.t) (metadata : metadata)
    (artists : list string) (title : string) :
  block_get_property spotify_block _ Metadata = Ok metadata ->
  xesam_artist metadata = Some artists ->
  xesam_title metadata = Some title ->
  xesam_album metadata = None \/ mpris_artUrl metadata = None ->
  GUIManager.update_from_spotify_block urlopen spotify_block status g
    = (Raise (KeyError (match xesam_album metadata with
                        | None => "xesam:album"
                        | Some _ => "mpris:artUrl"
                        end)),
       GUIManager.mk (GUIManager.status_str g) (join ", " artists) title
         (default (GUIManager.album g) (xesam_album metadata))
         (GUIManager.album_art g) (GUIManager.root_title g) (GUIManager.image g)).
Proof.
  intros Hget Ha Ht Hmissing.
  unfold GUIManager.update_from_spotify_block, GUIManager.bind, GUIManager.lift,
    GUIManager.assign.
  rewrite Hget, Ha, Ht. destruct g as [ss ar ti al aa rt im]. cbn -[old_url_to_new join].
  destruct (xesam_album metadata) as [album|]; cbn -[old_url_to_new join]; [|reflexivity].
  destruct Hmissing as [[=]| ->]. reflexivity.
Qed.

(** ** The configuration *)

(** X17.  The constructor merges the configuration into the defaults key
    by key: an icon or a mouse button given in the configuration wins,
    every other key keeps its default, and the three plain options
    replace their defaults when given.  The empty configuration gives the
    default blocklet. *)
Theorem configuration_is_merged_key_by_key (config : ConfigArg) (key : string) :
  let b := __init__ (Some config) in
  let merged := fun (given : option (gmap string string)) (defaults : gmap string string) =>
    match given with
    | Some value =>
        match value !! key with
        | Some v => Some v
        | None => defaults !! key
        end
    | None => defaults !! key
    end in
  Formatter._status_icons (_formatter b) !! key
    = merged (arg_status_icons config) (status_icons DEFAULT_CONFIG) /\
  _mouse_buttons b !! key
    = merged (arg_mouse_buttons config) (mouse_buttons DEFAULT_CONFIG) /\
  Formatter._format_string (_formatter b)
    = default (format DEFAULT_CONFIG) (arg_format config) /\
  Formatter._markup_escape (_formatter b) = default false (arg_markup_escape config) /\
  _dedupe b = default true (arg_dedupe config) /\
  __init__ (Some empty_config) = __init__ None.
Proof.
  intros b merged. subst b merged.
  cbn [__init__ _formatter _mouse_buttons _dedupe Formatter.__init__
       Formatter._status_icons Formatter._format_string Formatter._markup_escape
       status_icons mouse_buttons format markup_escape dedupe].
  split; [|split; [|repeat split]].
  - destruct (arg_status_icons config) as [value|]; [|reflexivity].
    destruct (value !! key) as [v|] eqn:Hv.
    + apply lookup_union_Some_l, Hv.
    + apply lookup_union_r, Hv.
  - destruct (arg_mouse_buttons config) as [value|]; [|reflexivity].
    destruct (value !! key) as [v|] eqn:Hv.
    + apply lookup_union_Some_l, Hv.
    + apply lookup_union_r, Hv.
Qed.

(** X18.  The command line wins over the configuration file, and the
    file over the defaults: for the format, for markup escaping and for
    de-duplication the blocklet of [_main] has the value of the command
    line when it gives one, else that of the file when it gives one, else
    the default.  Icons and mouse buttons come from the file alone. *)
Theorem command_line_overrides_file
    (load : string -> result ConfigArg) (args : Args) (file : ConfigArg) :
  (args_config args = None /\ file = empty_config) \/
  (exists path, args_config args = Some path /\ path <> EmptyString /\ load path = Ok file) ->
  exists config,
    main_config load args = Ok config /\
    _dedupe (__init__ (Some config))
      = default (default true (arg_dedupe file)) (args_dedupe args) /\
    Formatter._markup_escape (_formatter (__init__ (Some config)))
      = default (default false (arg_markup_escape file)) (args_markup_escape args) /\
    Formatter._format_string (_formatter (__init__ (Some config)))
      = default (default (format DEFAULT_CONFIG) (arg_format file)) (args_format args) /\
    arg_status_icons config = arg_status_icons file /\
    arg_mouse_buttons config = arg_mouse_buttons file.
Proof.
  intros Hfile. unfold main_config.
  assert (Hload : match args_config args with
                  | Some path =>
                      if bool_decide (path ≠ EmptyString) then load path else Ok empty_config
                  | None => Ok empty_config
                  end = Ok file).
  { destruct Hfile as [[-> ->]|(path & -> & Hne & Hl)]; [reflexivity|].
    rewrite (bool_decide_eq_true_2 _ Hne). exact Hl. }
  rewrite Hload. cbn. eexists. split; [reflexivity|].
  destruct (args_format args), (args_markup_escape args), (args_dedupe args);
    cbn; repeat split.
Qed.

Section MainProperties.
Context {ops : StrOps}.

(** X19.  Started from the command line, the program does not give up on
    a connection: when the configuration is read and the session bus or
    the player is missing, [_main] is still retrying after any number of
    turns, with one second slept per turn and nothing printed.  When the
    configuration file cannot be read, [_main] raises what the reading
    raised, before anything else happens. *)
Theorem main_retries_or_fails_on_its_file
    (load : string -> result ConfigArg) (args : Args) (fuel : nat) (w : World) :
  session_bus w = false \/ player w = None ->
  match main_config load args with
  | Ok config =>
      exists w', _main load args fuel w = (OutOfFuel, w') /\
                 slept w' = slept w + fuel /\ stdout w' = stdout w
  | Raise e => _main load args fuel w = (Raised e, w)
  end.
Proof.
  intros Hfail. unfold _main. destruct (main_config load args) as [config|e]; [|reflexivity].
  destruct (run_starts true true fuel (__init__ (Some config)) w (or_introl eq_refl) eq_refl)
    as (b0 & -> & _).
  destruct (while_true_forever_failing fuel (mkState b0 w) Hfail)
    as (st' & Hw & Hsl & Hout & _).
  unfold bind. rewrite Hw. exists (world st'). auto.
Qed.

End MainProperties.

(** ** The further properties at sample inputs *)

Lemma escaped_field_has_no_markup_witness :
  occurs "<" "&lt;B&gt;" = false /\ occurs ">" "&lt;B&gt;" = false /\
  occurs "034" "&lt;B&gt;" = false /\ occurs "'" "&lt;B&gt;" = false.
Proof.
  refine (escaped_field_has_no_markup (ops := ascii_ops)
            (Formatter.mk EmptyString ∅ true) "<b>" "upper" "&lt;B&gt;" _ _).
  - reflexivity.
  - vm_compute. reflexivity.
Defined.

Lemma escaping_changes_only_special_text_witness :
  Formatter.format_field (ops := ascii_ops) (Formatter.mk EmptyString ∅ true) "a b" "upper"
    = Ok "A B"
  <-> clean "A B" = true.
Proof.
  refine (escaping_changes_only_special_text (ops := ascii_ops)
            EmptyString ∅ "a b" "upper" "A B" _).
  vm_compute. reflexivity.
Defined.

Lemma unknown_field_fails_at_render_witness :
  exists e,
    render (ops := ascii_ops) (Formatter.__init__ "{album}" None false) "Playing"
           (track ["A"] "T") = Raise e /\
    e <> Unsupported.
Proof.
  refine (proj1 (unknown_field_fails_at_render (ops := ascii_ops)
            (Formatter.__init__ "{album}" None false) "Playing" (track ["A"] "T")
            EmptyString "album" EmptyString _ _ _)).
  - intros H. rewrite !elem_of_cons, elem_of_nil in H.
    destruct H as [H|[H|[H|[]]]]; discriminate H.
  - vm_compute. reflexivity.
  - vm_compute. left. reflexivity.
Defined.

Lemma show_info_needs_artist_and_title_witness :
  show_info (ops := ascii_ops) "Playing"
    {| xesam_artist := Some ["A"]; xesam_title := None;
       xesam_album := None; mpris_artUrl := None |} false (connected (session []))
    = (Raised (KeyError "xesam:title"), connected (session [])).
Proof.
  refine (proj1 (show_info_needs_artist_and_title (ops := ascii_ops)
            (connected (session [])) "Playing"
            {| xesam_artist := Some ["A"]; xesam_title := None;
               xesam_album := None; mpris_artUrl := None |} false _)).
  right. reflexivity.
Defined.

Lemma status_change_updates_button_only_witness :
  show_info (ops := ascii_ops) "Paused" (track ["A"; "B"] "T") true (viewing (session []))
    = (Return tt,
       mkState
         (set_old_status "Paused"
            (set_gui (Some (GUIManager.set_status_str GUIManager.glyph_play view_AB_T))
               (self (viewing (session [])))))
         (session [])).
Proof.
  refine (status_change_updates_button_only (ops := ascii_ops) (viewing (session []))
            view_AB_T "Paused" (track ["A"; "B"] "T") line_AB_T _ _ _ _).
  - reflexivity.
  - discriminate.
  - vm_compute. reflexivity.
  - reflexivity.
Defined.


Lemma retained_line_is_the_last_printed_witness :
  let st := fresh (session [PropertiesChanged PROPERTIES_INTERFACE changed_AB_T []; Interrupt]) in
  prev_is_last (view (snd (run (ops := ascii_ops) true false 1 st))).
Proof.
  intros st.
  refine (proj1 (proj2 (retained_line_is_the_last_printed (ops := ascii_ops) st
            (PropertiesChanged PROPERTIES_INTERFACE changed_AB_T []) true false 1
            (fst (handler_of (PropertiesChanged PROPERTIES_INTERFACE changed_AB_T []) st))
            (fst (run true false 1 st))
            (snd (handler_of (PropertiesChanged PROPERTIES_INTERFACE changed_AB_T []) st))
            (snd (run true false 1 st)) _ _ _))).
  - exact I.
  - apply surjective_pairing.
  - apply surjective_pairing.
Defined.

Lemma dedupe_drops_exactly_the_repeats_witness :
  stdout (world (feed (ops := ascii_ops) PROPERTIES_INTERFACE []
                   [("Playing", track ["A"] "T"); ("Paused", track ["A"] "T");
                    ("Playing", track ["B"] "T")]
                   (fresh (session []))))
    = ["A " ++ en_dash ++ " T"; "B " ++ en_dash ++ " T"].
Proof.
  refine (proj1 (dedupe_drops_exactly_the_repeats (ops := ascii_ops) PROPERTIES_INTERFACE []
            [("Playing", track ["A"] "T"); ("Paused", track ["A"] "T");
             ("Playing", track ["B"] "T")]
            ["A " ++ en_dash ++ " T"; "A " ++ en_dash ++ " T"; "B " ++ en_dash ++ " T"]
            (fresh (session [])) _)).
  repeat (constructor; [vm_compute; reflexivity|]). constructor.
Defined.

Lemma run_needs_a_loop_witness :
  run (ops := ascii_ops) false true 5 (fresh (session []))
    = (Raised (RuntimeError "Loop is not initialized; call init_loop() first."),
       fresh (session [])).
Proof.
  refine (run_needs_a_loop (ops := ascii_ops) (fresh (session [])) true 5 _).
  reflexivity.
Defined.

Lemma continuous_run_retries_for_ever_witness :
  exists st',
    run (ops := ascii_ops) true true 7 (fresh no_bus) = (OutOfFuel, st') /\
    slept (world st') = 0 + 7 /\
    stdout (world st') = [] /\
    receivers (world st') = 0 + 0.
Proof.
  refine (continuous_run_retries_for_ever (ops := ascii_ops) (fresh no_bus) true 7 _ _ _).
  - left. reflexivity.
  - reflexivity.
  - left. reflexivity.
Defined.


Lemma interrupt_ends_run_in_both_modes_witness :
  let later := [NameOwnerChanged BUS_NAME ":1.42" EmptyString] in
  let st := fresh (session (PropertiesChanged PROPERTIES_INTERFACE changed_status_only []
                            :: Interrupt :: later)) in
  exists st',
    run (ops := ascii_ops) true true 1 st = (Return tt, st') /\
    loop (self st') = Some {| quit_called := true |} /\
    pending (world st') = later /\
    slept (world st') = 0 /\
    exists lines, stdout (world st') = ([] ++ line_AB_T :: lines)%list.
Proof.
  intros later st.
  refine (interrupt_ends_run_in_both_modes (ops := ascii_ops) st playing_AB_T line_AB_T
            [PropertiesChanged PROPERTIES_INTERFACE changed_status_only []] later
            true true 0 _ _ _ _ _ _ _ _).
  - left. reflexivity.
  - reflexivity.
  - reflexivity.
  - reflexivity.
  - vm_compute. reflexivity.
  - reflexivity.
  - reflexivity.
  - reflexivity.
Defined.

Lemma update_from_spotify_block_fills_the_view_witness :
  GUIManager.update_from_spotify_block (fun url => Ok url)
    (block_playing (track ["C"] "U")) "Paused" view_AB_T
    = (Ok tt,
       GUIManager.mk GUIManager.glyph_play "C" "U" "Album"
         "https://i.scdn.co/image/abc123" "C - U" (Some "https://i.scdn.co/image/abc123")).
Proof.
  refine (update_from_spotify_block_fills_the_view (fun url => Ok url)
            (block_playing (track ["C"] "U")) "Paused" view_AB_T ["C"] "U" "Album"
            "https://open.spotify.com/image/abc123" _).
  reflexivity.
Defined.

Lemma update_from_spotify_block_stops_half_way_witness :
  GUIManager.update_from_spotify_block (fun url => Ok url)
    (block_playing bare_track) "Paused" view_AB_T
    = (Raise (KeyError "xesam:album"),
       GUIManager.mk GUIManager.glyph_pause "C" "U" "Album"
         "https://i.scdn.co/image/abc123" "A, B - T" (Some "https://i.scdn.co/image/abc123")).
Proof.
  refine (update_from_spotify_block_stops_half_way (fun url => Ok url)
            (block_playing bare_track) "Paused" view_AB_T bare_track ["C"] "U" _ _ _ _).
  - reflexivity.
  - reflexivity.
  - reflexivity.
  - left. reflexivity.
Defined.

Lemma command_line_overrides_file_witness :
  exists config,
    main_config load_file_escaping args_no_dedupe = Ok config /\
    _dedupe (__init__ (Some config)) = false /\
    Formatter._markup_escape (_formatter (__init__ (Some config))) = true /\
    Formatter._format_string (_formatter (__init__ (Some config))) = format DEFAULT_CONFIG /\
    arg_status_icons config = None /\
    arg_mouse_buttons config = None.
Proof.
  refine (command_line_overrides_file load_file_escaping args_no_dedupe file_escaping _).
  right. exists "f.json". split; [reflexivity|]. split; [discriminate|reflexivity].
Defined.

Lemma main_retries_or_fails_on_its_file_witness :
  exists w',
    _main (ops := ascii_ops) load_file_escaping args_no_dedupe 3 no_bus = (OutOfFuel, w') /\
    slept w' = 0 + 3 /\ stdout w' = [].
Proof.
  refine (main_retries_or_fails_on_its_file (ops := ascii_ops)
            load_file_escaping args_no_dedupe 3 no_bus _).
  left. reflexivity.
Defined.
